(** * AuraLock: the presence decision engine of [run_auralock.py]

    A shallow embedding of the distance estimator ([rssi_to_distance]) and of
    the scanner callback ([detection_callback], with [lock_screen] and
    [unlock_screen]) together with the properties the specification states
    about them.

    Numbers.  The script computes on Python floats.  They are modelled as
    real numbers, with a separate value for [float('inf')]: comparison and
    subtraction are exact and a division by zero raises [ZeroDivisionError]
    as it does in Python.  The range of the doubles is modelled where the
    estimator can leave it: [10 ** x] raises [OverflowError] beyond the
    largest double and gives 0.0 below the smallest, and a product beyond
    the largest double is infinity.  The rounding of the arithmetic within
    the range is outside the model, and so are NaN and infinite values in
    [config.json].

    Effects.  The script mutates two module globals and talks to the outside
    through [subprocess.run] and [print]; both are threaded explicitly, the
    globals as a state and the calls as a trace of events.  The value of
    [time.time()] read by the callback is an argument of the callback.

    Start-up.  The presence probe of [run] is embedded up to the point where
    the scanner with the callback is started; the clock and the scanner's
    list of devices at each turn of its loop are given as a list of polls. *)

From Stdlib Require Import Reals Lra List String Bool.
From Stdlib Require Import Arith Lia.
Import ListNotations.

Open Scope R_scope.

(** ** Numbers *)

(** A Python float that is not NaN: a real number or [float('inf')]. *)
Inductive distance : Type :=
| Finite (r : R)
| Infinity.

Definition Rleb (x y : R) : bool := if Rle_dec x y then true else false.
Definition Rltb (x y : R) : bool := if Rlt_dec x y then true else false.
Definition Reqb (x y : R) : bool := if Req_dec_T x y then true else false.

(** The order of floats, as propositions ... *)
Definition dist_le (x y : distance) : Prop :=
  match x, y with
  | Finite a, Finite b => a <= b
  | _, Infinity => True
  | Infinity, Finite _ => False
  end.

Definition dist_lt (x y : distance) : Prop :=
  match x, y with
  | Finite a, Finite b => a < b
  | Finite _, Infinity => True
  | Infinity, _ => False
  end.

(** ... and as the tests [x <= y] and [x < y] the script evaluates. *)
Definition dist_leb (x y : distance) : bool :=
  match x, y with
  | Finite a, Finite b => Rleb a b
  | _, Infinity => true
  | Infinity, Finite _ => false
  end.

Definition dist_ltb (x y : distance) : bool :=
  match x, y with
  | Finite a, Finite b => Rltb a b
  | Finite _, Infinity => true
  | Infinity, _ => false
  end.

(** ** Configuration, globals and events *)

(** [config.json], read once at import time (lines 11-21).  The numbers
    are finite: the [Infinity] and [NaN] that [json.load] also accepts are
    not configurations of this model. *)
Record config : Type := {
  TARGET_MAC_ADDRESS : string;
  RSSI_AT_1M : R;
  PATH_LOSS_EXPONENT : R;
  DISTANCE_THRESHOLD_CM : R;
  NEARBY_DISTANCE_CM : R;
  TIME_THRESHOLD_SECONDS : R
}.

(** The module globals the callback reads and writes (lines 24 and 27).
    [scanner] and [exit_event] are declared [global] in the callback but
    never touched by it. *)
Record globals : Type := {
  distance_exceed_start_time : option R;
  screen_locked : bool
}.

(** The globals when the scan starts (lines 24, 27 and 105). *)
Definition initial_globals : globals :=
  {| distance_exceed_start_time := None; screen_locked := false |}.

Record BLEDevice : Type := {
  name : option string;
  address : string
}.

Record AdvertisementData : Type := {
  rssi : R
}.

(** The command lines handed to [subprocess.run]. *)
Inductive command : Type :=
| ScreensaverLock        (* cinnamon-screensaver-command --lock *)
| ScreensaverDeactivate  (* cinnamon-screensaver-command --deactivate *)
| NotifySend (text : string).

(** The lines handed to [log_message]; the numbers are kept unformatted. *)
Inductive message : Type :=
| DeviceFound (device : BLEDevice) (rssi : R) (d : distance)
| DeviceCloseEnough (d : distance)
| UserTooFar (d : distance)
| ScreenLocked
| ScreenUnlocked.

Inductive event : Type :=
| Run (c : command)
| Print (m : message).

(** The specification's intents are the two screensaver commands. *)
Inductive intent : Type :=
| LockIntent
| UnlockIntent.

Definition intent_of (e : event) : option intent :=
  match e with
  | Run ScreensaverLock => Some LockIntent
  | Run ScreensaverDeactivate => Some UnlockIntent
  | _ => None
  end.

Fixpoint intents (trace : list event) : list intent :=
  match trace with
  | [] => []
  | e :: trace' =>
      match intent_of e with
      | Some i => i :: intents trace'
      | None => intents trace'
      end
  end.

(** ** A monad for the script: globals, trace and exceptions *)

Inductive exn : Type :=
| ZeroDivisionError
| OverflowError.

Inductive result (A : Type) : Type :=
| Ok (a : A)
| Raise (e : exn).

Arguments Ok {A} a.
Arguments Raise {A} e.

(** A computation returns or raises; either way the globals it has written
    and the events it has produced so far stay. *)
Definition M (A : Type) : Type := globals -> result A * globals * list event.

Definition ret {A : Type} (a : A) : M A := fun g => (Ok a, g, []).

Definition bind {A B : Type} (m : M A) (k : A -> M B) : M B :=
  fun g =>
    match m g with
    | (Ok a, g1, tr1) =>
        match k a g1 with
        | (r, g2, tr2) => (r, g2, tr1 ++ tr2)
        end
    | (Raise e, g1, tr1) => (Raise e, g1, tr1)
    end.

Declare Scope script_scope.
Delimit Scope script_scope with script.
Notation "x <- m ;; k" := (bind m (fun x => k))
  (at level 61, m at next level, right associativity) : script_scope.
Notation "m ;; k" := (bind m (fun _ => k))
  (at level 61, right associativity) : script_scope.

Definition lift {A : Type} (r : result A) : M A := fun g => (r, g, []).

Definition get_distance_exceed_start_time : M (option R) :=
  fun g => (Ok (distance_exceed_start_time g), g, []).

Definition set_distance_exceed_start_time (t : option R) : M unit :=
  fun g => (Ok tt,
            {| distance_exceed_start_time := t; screen_locked := screen_locked g |},
            []).

Definition get_screen_locked : M bool :=
  fun g => (Ok (screen_locked g), g, []).

Definition set_screen_locked (b : bool) : M unit :=
  fun g => (Ok tt,
            {| distance_exceed_start_time := distance_exceed_start_time g;
               screen_locked := b |},
            []).

Definition subprocess_run (c : command) : M unit :=
  fun g => (Ok tt, g, [Run c]).

(** [log_message] prints the message behind a timestamp (lines 40-45); the
    timestamp is not kept. *)
Definition log_message (m : message) : M unit :=
  fun g => (Ok tt, g, [Print m]).

(** What a computation leaves behind. *)
Definition outcome : Type := result unit * globals * list event.

Definition returned (o : outcome) : result unit := fst (fst o).
Definition final (o : outcome) : globals := snd (fst o).
Definition trace (o : outcome) : list event := snd o.
Definition emitted (o : outcome) : list intent := intents (trace o).

(** ** The range of the doubles *)

(** The largest double, [2^1024 - 2^971]. *)
Definition float_max : R := IZR (2 ^ 1024 - 2 ^ 971).

(** Half the smallest positive double, [2^-1075]: what is at or below it
    rounds to 0.0. *)
Definition float_tiny : R := / IZR (2 ^ 1075).

(** [10 ** x] for a float [x] (CPython's [float_pow]).  An exponent beyond
    the range is an infinity, as the division that produced it overflowed:
    its power is infinity or 0.0, without an exception.  For an exponent
    within the range the C library's [pow] is called: a result beyond the
    range raises [OverflowError], a result that underflows is 0.0. *)
Definition float_pow10 (x : R) : result distance :=
  if Rltb float_max x then Ok Infinity
  else if Rltb x (- float_max) then Ok (Finite 0)
  else
    let power := Rpower 10 x in
    if Rltb float_max power then Raise OverflowError
    else if Rleb power float_tiny then Ok (Finite 0)
    else Ok (Finite power).

(** [m * 100] for a float [m] that is not negative: a product beyond the
    range is infinity, without an exception. *)
Definition float_mul_100 (m : distance) : distance :=
  match m with
  | Finite r => if Rltb float_max (r * 100) then Infinity else Finite (r * 100)
  | Infinity => Infinity
  end.

(** ** The script *)

Section Script.

Variable cfg : config.

Open Scope script_scope.

(** Lines 29-38. *)
Definition rssi_to_distance (rssi : R) : result distance :=
  if Reqb rssi 0 then Ok Infinity
  else
    let divisor := 10 * PATH_LOSS_EXPONENT cfg in
    if Reqb divisor 0 then Raise ZeroDivisionError
    else
      match float_pow10 ((RSSI_AT_1M cfg - rssi) / divisor) with
      | Raise e => Raise e
      | Ok distance_meters =>
          let distance_centimeters := float_mul_100 distance_meters in
          Ok distance_centimeters
      end.

(** Lines 47-55. *)
Definition lock_screen : M unit :=
  subprocess_run ScreensaverLock ;;
  subprocess_run (NotifySend "AuraLock locked the screen.") ;;
  set_screen_locked true ;;
  log_message ScreenLocked.

(** Lines 57-66. *)
Definition unlock_screen : M unit :=
  locked <- get_screen_locked ;;
  if locked then
    subprocess_run ScreensaverDeactivate ;;
    subprocess_run (NotifySend "AuraLock unlocked the screen.") ;;
    set_screen_locked false ;;
    log_message ScreenUnlocked
  else ret tt.

(** Lines 79-97: what the callback does with the estimated distance.
    [now] is the value of [time.time()], read on line 88 or on line 89. *)
Definition on_distance (distance : distance) (now : R) : M unit :=
  if dist_leb distance (Finite (NEARBY_DISTANCE_CM cfg)) then
    log_message (DeviceCloseEnough distance) ;;
    unlock_screen ;;
    set_distance_exceed_start_time None
  else if dist_ltb (Finite (DISTANCE_THRESHOLD_CM cfg)) distance then
    start <- get_distance_exceed_start_time ;;
    match start with
    | None => set_distance_exceed_start_time (Some now)
    | Some t =>
        if Rltb (TIME_THRESHOLD_SECONDS cfg) (now - t) then
          log_message (UserTooFar distance) ;;
          lock_screen ;;
          set_distance_exceed_start_time None
        else ret tt
    end
  else set_distance_exceed_start_time None.

(** Lines 68-97. *)
Definition detection_callback
    (device : BLEDevice) (advertisement_data : AdvertisementData)
    (now : R) : M unit :=
  if String.eqb (address device) (TARGET_MAC_ADDRESS cfg) then
    let rssi := rssi advertisement_data in
    distance <- lift (rssi_to_distance rssi) ;;
    log_message (DeviceFound device rssi distance) ;;
    on_distance distance now
  else ret tt.

(** A sample is an estimated distance and the time it is processed at. *)
Definition sample : Type := (distance * R)%type.

(** The callback body over a sequence of samples: the intents of each
    sample in turn and the globals at the end. *)
Fixpoint feed (samples : list sample) (g : globals)
    : list (list intent) * globals :=
  match samples with
  | [] => ([], g)
  | (d, now) :: rest =>
      let o := on_distance d now g in
      let (later, g') := feed rest (final o) in
      (emitted o :: later, g')
  end.

End Script.

(** The thresholds of the specification's scenarios: nearby 100 cm, away
    300 cm, away duration 5 s; calibrated at -60 dBm with exponent 2. *)
Definition scenario_config : config :=
  {| TARGET_MAC_ADDRESS := "AA:BB:CC:DD:EE:FF";
     RSSI_AT_1M := -60;
     PATH_LOSS_EXPONENT := 2;
     DISTANCE_THRESHOLD_CM := 300;
     NEARBY_DISTANCE_CM := 100;
     TIME_THRESHOLD_SECONDS := 5 |}.


(** The specification asks of the thresholds that the nearby one is not
    above the away one; the script does not check it. *)
Definition thresholds_ordered (cfg : config) : Prop :=
  NEARBY_DISTANCE_CM cfg <= DISTANCE_THRESHOLD_CM cfg.

(** [awaySince] is explained by the samples seen so far: when the timer is
    set to [t], the samples end with a run that starts with the sample
    processed at [t] and whose distances all exceed the away threshold. *)
Definition timer_explained
    (cfg : config) (history : list sample) (g : globals) : Prop :=
  match distance_exceed_start_time g with
  | None => True
  | Some t =>
      exists before d since,
        history = before ++ (d, t) :: since /\
        Forall (fun s : sample =>
                  dist_lt (Finite (DISTANCE_THRESHOLD_CM cfg)) (fst s))
               ((d, t) :: since)
  end.

(** ** The scanner's use of the callback *)

(** An advertisement as the scanner hands it to the callback (line 134),
    with the value of the clock at that moment. *)
Definition advertisement : Type := (BLEDevice * AdvertisementData * R)%type.

Definition from_target (cfg : config) (a : advertisement) : bool :=
  String.eqb (address (fst (fst a))) (TARGET_MAC_ADDRESS cfg).

(** The callback on each advertisement in turn: what is run and printed, and
    the globals at the end.  The globals are module variables: a call that
    raises leaves them as they were when it raised, and the next call finds
    them so. *)
Fixpoint scan (cfg : config) (ads : list advertisement) (g : globals)
    : list event * globals :=
  match ads with
  | [] => ([], g)
  | (device, data, now) :: rest =>
      let o := detection_callback cfg device data now g in
      let (tr, g') := scan cfg rest (final o) in
      (trace o ++ tr, g')
  end.

(** The lock flag as the screensaver commands alone determine it: a lock
    command sets it, an unlock command needs it set and resets it. *)
Fixpoint replay (locked : bool) (fired : list intent) : option bool :=
  match fired with
  | [] => Some locked
  | LockIntent :: rest => replay true rest
  | UnlockIntent :: rest => if locked then replay false rest else None
  end.

(** ** Start-up: the presence probe of [run] (lines 99-135) *)

(** One turn of the [while] on line 115: the value of [time.time()] in its
    test and the [scanner.discovered_devices] its body reads. *)
Definition poll : Type := (R * list BLEDevice)%type.

Definition is_target_device (cfg : config) (device : BLEDevice) : bool :=
  String.eqb (address device) (TARGET_MAC_ADDRESS cfg).

(** Lines 117-119.  [device_name] is a local of [run]: [None] while it is
    unbound, [Some n] once it is bound to [n] (a name or Python's [None]). *)
Definition bind_device_name (cfg : config) (devices : list BLEDevice)
    (device_name : option (option string)) : option (option string) :=
  fold_left
    (fun bound device =>
       if is_target_device cfg device then Some (name device) else bound)
    devices device_name.

(** How the loop ends. *)
Inductive probe_end : Type :=
| Found (device_name : option string)  (* [break] on line 123 *)
| Unbound         (* line 122 reads [device_name] while it is unbound *)
| TimedOut        (* the test on line 115 fails *)
| Pending.        (* the polls given are used up and the loop goes on *)

(** Lines 115-124: the number of times line 124 sleeps and how the loop
    ends. *)
Fixpoint probe (cfg : config) (start_time : R) (polls : list poll)
    (device_name : option (option string)) : nat * probe_end :=
  match polls with
  | [] => (O, Pending)
  | (now, devices) :: rest =>
      if Rltb (now - start_time) 15 then
        let device_name := bind_device_name cfg devices device_name in
        if existsb (is_target_device cfg) devices then
          match device_name with
          | Some n => (O, Found n)
          | None => (O, Unbound)
          end
        else
          let (sleeps, ending) := probe cfg start_time rest device_name in
          (S sleeps, ending)
      else (O, TimedOut)
  end.

Definition newline : string := String (Ascii.ascii_of_nat 10) EmptyString.

(** [str(device_name)] inside the f-string of line 122. *)
Definition str_of_name (device_name : option string) : string :=
  match device_name with
  | Some n => n
  | None => "None"
  end.

Definition found_text (cfg : config) (device_name : option string) : string :=
  ("AuraLock found the band and started successfully."
   ++ newline ++ newline ++ "Device Name: " ++ str_of_name device_name
   ++ newline ++ newline ++ "Device MAC: " ++ TARGET_MAC_ADDRESS cfg)%string.

Definition not_found_text : string :=
  "AuraLock couldn't find the band. AuraLock will exit now until next restart.".

(** What [run] does up to line 135. *)
Inductive startup_event : Type :=
| ScannerStarted (with_callback : bool)
| ScannerStopped
| Slept
| Notified (text : string)
| Logged (text : string).

Inductive startup_end : Type :=
| Tracking (g : globals)   (* line 135 is reached: the callback is installed *)
| Exited (status : nat)    (* [sys.exit] on line 131 *)
| Crashed                  (* an exception leaves [run] *)
| Probing.                 (* still in the loop of line 115 *)

(** Lines 105-135.  [start_time] is the clock read on line 112. *)
Definition run_startup (cfg : config) (g : globals) (start_time : R)
    (polls : list poll) : list startup_event * startup_end :=
  let g := {| distance_exceed_start_time := None;
              screen_locked := screen_locked g |} in
  let (sleeps, ending) := probe cfg start_time polls None in
  let probing := ScannerStarted false :: repeat Slept sleeps in
  match ending with
  | Found n =>
      (probing ++ [Notified (found_text cfg n); ScannerStopped;
                   ScannerStarted true],
       Tracking g)
  | Unbound => (probing, Crashed)
  | TimedOut =>
      (probing ++ [ScannerStopped; Notified not_found_text;
                   Logged "Device not found. Exiting script."],
       Exited 0)
  | Pending => (probing, Probing)
  end.

(** The clock of the probe: read at [prev] or later in the first test, and
    from one test to the next at least the second slept on line 124 goes
    by. *)
Fixpoint ticking (prev : R) (polls : list poll) : Prop :=
  match polls with
  | [] => True
  | (now, _) :: rest => prev <= now /\ ticking (now + 1) rest
  end.

(** [n] is the name of the last device of the list that carries the
    target's address. *)
Definition names_last_target (cfg : config) (devices : list BLEDevice)
    (n : option string) : Prop :=
  exists l1 device l2,
    devices = l1 ++ device :: l2 /\
    is_target_device cfg device = true /\
    existsb (is_target_device cfg) l2 = false /\
    name device = n.

(** A turn of the loop before the deadline in which the scanner does not
    show the target. *)
Definition no_sighting (cfg : config) (start_time : R) (p : poll) : Prop :=
  fst p - start_time < 15 /\
  existsb (is_target_device cfg) (snd p) = false.

(** A calibration with the small exponent 1/128, under which the estimates
    leave the range of the doubles for ordinary signal strengths. *)
Definition steep_config : config :=
  {| TARGET_MAC_ADDRESS := "AA:BB:CC:DD:EE:FF";
     RSSI_AT_1M := -60;
     PATH_LOSS_EXPONENT := / 128;
     DISTANCE_THRESHOLD_CM := 300;
     NEARBY_DISTANCE_CM := 100;
     TIME_THRESHOLD_SECONDS := 5 |}.

(** A number the doubles can hold without overflowing to an infinity. *)
Definition within_range (r : R) : Prop := - float_max <= r <= float_max.

(** ** The comparisons *)

Lemma Rleb_true (x y : R) : Rleb x y = true <-> x <= y.
Proof.
  unfold Rleb. destruct (Rle_dec x y); split; intros; auto; discriminate || lra.
Qed.

Lemma Rleb_false (x y : R) : Rleb x y = false <-> y < x.
Proof.
  unfold Rleb. destruct (Rle_dec x y); split; intros; auto; discriminate || lra.
Qed.

Lemma Rltb_true (x y : R) : Rltb x y = true <-> x < y.
Proof.
  unfold Rltb. destruct (Rlt_dec x y); split; intros; auto; discriminate || lra.
Qed.

Lemma Rltb_false (x y : R) : Rltb x y = false <-> y <= x.
Proof.
  unfold Rltb. destruct (Rlt_dec x y); split; intros; auto; discriminate || lra.
Qed.

Lemma Reqb_true (x y : R) : Reqb x y = true <-> x = y.
Proof.
  unfold Reqb. destruct (Req_dec_T x y); split; intros; auto; discriminate || lra.
Qed.

Lemma Reqb_false (x y : R) : Reqb x y = false <-> x <> y.
Proof.
  unfold Reqb. destruct (Req_dec_T x y); split; intros; auto;
    discriminate || contradiction.
Qed.

Lemma dist_leb_true (x y : distance) : dist_leb x y = true <-> dist_le x y.
Proof.
  destruct x, y; simpl; try apply Rleb_true; split; intros; auto; discriminate || contradiction.
Qed.

Lemma dist_ltb_true (x y : distance) : dist_ltb x y = true <-> dist_lt x y.
Proof.
  destruct x, y; simpl; try apply Rltb_true; split; intros; auto; discriminate || contradiction.
Qed.

(** On these numbers [x > y] is the negation of [x <= y]. *)
Lemma dist_leb_false (x y : distance) : dist_leb x y = false <-> dist_lt y x.
Proof.
  destruct x, y; simpl; try apply Rleb_false; split; intros; auto; discriminate || contradiction.
Qed.

Lemma dist_ltb_false (x y : distance) : dist_ltb x y = false <-> dist_le y x.
Proof.
  destruct x, y; simpl; try apply Rltb_false; split; intros; auto; discriminate || contradiction.
Qed.

Lemma dist_le_lt_trans (x y z : distance) :
  dist_le x y -> dist_lt y z -> dist_lt x z.
Proof.
  destruct x, y, z; simpl; intros; auto; try contradiction; lra.
Qed.

(** ** The callback, branch by branch *)

Section Branches.

Variable cfg : config.

Let nearby : distance := Finite (NEARBY_DISTANCE_CM cfg).
Let away : distance := Finite (DISTANCE_THRESHOLD_CM cfg).

(** Lines 80-83 with the screen locked. *)
Lemma on_distance_nearby_locked (d : distance) (now : R) (g : globals) :
  dist_le d nearby ->
  screen_locked g = true ->
  on_distance cfg d now g =
    (Ok tt,
     {| distance_exceed_start_time := None; screen_locked := false |},
     [Print (DeviceCloseEnough d);
      Run ScreensaverDeactivate;
      Run (NotifySend "AuraLock unlocked the screen.");
      Print ScreenUnlocked]).
Proof.
  intros Hd Hl. apply dist_leb_true in Hd. subst nearby.
  unfold on_distance. rewrite Hd.
  unfold unlock_screen, bind, log_message, get_screen_locked. simpl.
  rewrite Hl. reflexivity.
Qed.

(** Lines 80-83 with the screen unlocked. *)
Lemma on_distance_nearby_unlocked (d : distance) (now : R) (g : globals) :
  dist_le d nearby ->
  screen_locked g = false ->
  on_distance cfg d now g =
    (Ok tt,
     {| distance_exceed_start_time := None; screen_locked := false |},
     [Print (DeviceCloseEnough d)]).
Proof.
  intros Hd Hl. apply dist_leb_true in Hd. subst nearby.
  unfold on_distance. rewrite Hd.
  unfold unlock_screen, bind, log_message, get_screen_locked. simpl.
  rewrite Hl. simpl. rewrite Hl. reflexivity.
Qed.

(** Lines 95-97. *)
Lemma on_distance_dead_zone (d : distance) (now : R) (g : globals) :
  dist_lt nearby d ->
  dist_le d away ->
  on_distance cfg d now g =
    (Ok tt,
     {| distance_exceed_start_time := None; screen_locked := screen_locked g |},
     []).
Proof.
  intros Hn Ha. apply dist_leb_false in Hn. apply dist_ltb_false in Ha.
  subst nearby away. unfold on_distance. rewrite Hn, Ha. reflexivity.
Qed.

(** Lines 86-88. *)
Lemma on_distance_away_first (d : distance) (now : R) (g : globals) :
  dist_lt nearby d ->
  dist_lt away d ->
  distance_exceed_start_time g = None ->
  on_distance cfg d now g =
    (Ok tt,
     {| distance_exceed_start_time := Some now; screen_locked := screen_locked g |},
     []).
Proof.
  intros Hn Ha Hs. apply dist_leb_false in Hn. apply dist_ltb_true in Ha.
  subst nearby away. unfold on_distance. rewrite Hn, Ha.
  unfold bind, get_distance_exceed_start_time. rewrite Hs. reflexivity.
Qed.

(** Lines 89-94. *)
Lemma on_distance_away_expired (d : distance) (now t : R) (g : globals) :
  dist_lt nearby d ->
  dist_lt away d ->
  distance_exceed_start_time g = Some t ->
  now - t > TIME_THRESHOLD_SECONDS cfg ->
  on_distance cfg d now g =
    (Ok tt,
     {| distance_exceed_start_time := None; screen_locked := true |},
     [Print (UserTooFar d);
      Run ScreensaverLock;
      Run (NotifySend "AuraLock locked the screen.");
      Print ScreenLocked]).
Proof.
  intros Hn Ha Hs Ht. apply dist_leb_false in Hn. apply dist_ltb_true in Ha.
  apply Rgt_lt, Rltb_true in Ht.
  subst nearby away. unfold on_distance. rewrite Hn, Ha.
  unfold bind, get_distance_exceed_start_time. rewrite Hs, Ht. reflexivity.
Qed.

(** Line 89 when the test fails: nothing is done. *)
Lemma on_distance_away_waiting (d : distance) (now t : R) (g : globals) :
  dist_lt nearby d ->
  dist_lt away d ->
  distance_exceed_start_time g = Some t ->
  now - t <= TIME_THRESHOLD_SECONDS cfg ->
  on_distance cfg d now g = (Ok tt, g, []).
Proof.
  intros Hn Ha Hs Ht. apply dist_leb_false in Hn. apply dist_ltb_true in Ha.
  apply Rltb_false in Ht.
  subst nearby away. unfold on_distance. rewrite Hn, Ha.
  unfold bind, get_distance_exceed_start_time. rewrite Hs, Ht. reflexivity.
Qed.

(** With ordered thresholds a distance beyond the away threshold is beyond
    the nearby one. *)
Lemma away_is_not_nearby (d : distance) :
  thresholds_ordered cfg -> dist_lt away d -> dist_lt nearby d.
Proof.
  intros Ho Ha. apply (dist_le_lt_trans nearby away d); auto.
Qed.

(** A distance is nearby, in the dead zone or away. *)
Lemma distance_cases (d : distance) :
  dist_le d nearby \/ (dist_lt nearby d /\ dist_le d away) \/
  (dist_lt nearby d /\ dist_lt away d).
Proof.
  destruct (dist_leb d nearby) eqn:Hn.
  - left. now apply dist_leb_true.
  - apply dist_leb_false in Hn. right.
    destruct (dist_ltb away d) eqn:Ha.
    + right. split; auto. now apply dist_ltb_true.
    + left. split; auto. now apply dist_ltb_false.
Qed.

(** The callback body never raises. *)
Lemma on_distance_returns (d : distance) (now : R) (g : globals) :
  returned (on_distance cfg d now g) = Ok tt.
Proof.
  destruct (distance_cases d) as [Hn | [[Hn Ha] | [Hn Ha]]].
  - destruct (screen_locked g) eqn:Hl.
    + now rewrite on_distance_nearby_locked.
    + now rewrite on_distance_nearby_unlocked.
  - now rewrite on_distance_dead_zone.
  - destruct (distance_exceed_start_time g) as [t|] eqn:Hs.
    + destruct (Rlt_dec (TIME_THRESHOLD_SECONDS cfg) (now - t)).
      * now rewrite (on_distance_away_expired d now t).
      * rewrite (on_distance_away_waiting d now t); auto. lra.
    + now rewrite on_distance_away_first.
Qed.

(** The callback on an advertisement of the target device: the estimate is
    logged and handed to the body. *)
Lemma detection_callback_target
    (device : BLEDevice) (data : AdvertisementData) (now : R)
    (g : globals) (d : distance) :
  address device = TARGET_MAC_ADDRESS cfg ->
  rssi_to_distance cfg (rssi data) = Ok d ->
  detection_callback cfg device data now g =
    (returned (on_distance cfg d now g),
     final (on_distance cfg d now g),
     Print (DeviceFound device (rssi data) d) :: trace (on_distance cfg d now g)).
Proof.
  intros Ha Hd. unfold detection_callback.
  rewrite Ha, String.eqb_refl.
  unfold bind, lift, log_message. rewrite Hd.
  destruct (on_distance cfg d now g) as [[r g'] tr]. reflexivity.
Qed.

(** Advertisements of other devices are ignored. *)
Lemma detection_callback_other
    (device : BLEDevice) (data : AdvertisementData) (now : R) (g : globals) :
  address device <> TARGET_MAC_ADDRESS cfg ->
  detection_callback cfg device data now g = (Ok tt, g, []).
Proof.
  intros Ha. unfold detection_callback.
  apply String.eqb_neq in Ha. rewrite Ha. reflexivity.
Qed.

(** A failing estimate ends the callback before anything is done. *)
Lemma detection_callback_raises
    (device : BLEDevice) (data : AdvertisementData) (now : R)
    (g : globals) (e : exn) :
  address device = TARGET_MAC_ADDRESS cfg ->
  rssi_to_distance cfg (rssi data) = Raise e ->
  detection_callback cfg device data now g = (Raise e, g, []).
Proof.
  intros Ha Hd. unfold detection_callback.
  rewrite Ha, String.eqb_refl.
  unfold bind, lift. rewrite Hd. reflexivity.
Qed.

(** What is proved of the body on a distance holds of the callback on an
    advertisement with that estimate: same result, globals and intents. *)
Lemma detection_callback_body
    (device : BLEDevice) (data : AdvertisementData) (now : R)
    (g : globals) (d : distance) :
  address device = TARGET_MAC_ADDRESS cfg ->
  rssi_to_distance cfg (rssi data) = Ok d ->
  returned (detection_callback cfg device data now g)
    = returned (on_distance cfg d now g) /\
  final (detection_callback cfg device data now g)
    = final (on_distance cfg d now g) /\
  emitted (detection_callback cfg device data now g)
    = emitted (on_distance cfg d now g).
Proof.
  intros Ha Hd. rewrite (detection_callback_target device data now g d Ha Hd).
  repeat split; reflexivity.
Qed.

End Branches.

(** ** What one sample can and cannot do *)

Lemma feed_cons (cfg : config) (d : distance) (now : R)
    (rest : list sample) (g : globals) :
  feed cfg ((d, now) :: rest) g =
    (emitted (on_distance cfg d now g)
       :: fst (feed cfg rest (final (on_distance cfg d now g))),
     snd (feed cfg rest (final (on_distance cfg d now g)))).
Proof.
  cbn [feed]. destruct (feed cfg rest (final (on_distance cfg d now g))). reflexivity.
Qed.

(** A lock command is run only on line 92: the distance is beyond the away
    threshold and the timer has run for longer than the away duration. *)
Lemma lock_intent_inv (cfg : config) (d : distance) (now : R) (g : globals) :
  In LockIntent (emitted (on_distance cfg d now g)) ->
  dist_lt (Finite (DISTANCE_THRESHOLD_CM cfg)) d /\
  exists t, distance_exceed_start_time g = Some t /\
            now - t > TIME_THRESHOLD_SECONDS cfg.
Proof.
  intros Hin.
  destruct (distance_cases cfg d) as [Hn | [[Hn Ha] | [Hn Ha]]].
  - destruct (screen_locked g) eqn:Hl.
    + rewrite on_distance_nearby_locked in Hin by assumption.
      simpl in Hin. intuition discriminate.
    + rewrite on_distance_nearby_unlocked in Hin by assumption.
      simpl in Hin. contradiction.
  - rewrite on_distance_dead_zone in Hin by assumption. contradiction.
  - split; [assumption|].
    destruct (distance_exceed_start_time g) as [t|] eqn:Hs.
    + destruct (Rlt_dec (TIME_THRESHOLD_SECONDS cfg) (now - t)) as [Ht|Ht].
      * exists t. split; [reflexivity | lra].
      * rewrite (on_distance_away_waiting cfg d now t) in Hin
          by (assumption || lra).
        contradiction.
    + rewrite on_distance_away_first in Hin by assumption. contradiction.
Qed.

(** Lines 83 and 97: a distance at or below the away threshold clears the
    timer, whatever the globals were. *)
Lemma not_away_clears_timer (cfg : config) (d : distance) (now : R) (g : globals) :
  dist_le d (Finite (DISTANCE_THRESHOLD_CM cfg)) ->
  distance_exceed_start_time (final (on_distance cfg d now g)) = None.
Proof.
  intros Hle.
  destruct (distance_cases cfg d) as [Hn | [[Hn Ha] | [Hn Ha]]].
  - destruct (screen_locked g) eqn:Hl.
    + now rewrite on_distance_nearby_locked.
    + now rewrite on_distance_nearby_unlocked.
  - now rewrite on_distance_dead_zone.
  - apply dist_ltb_false in Hle. apply dist_ltb_true in Ha. congruence.
Qed.

(** One sample keeps the timer explained by the samples seen. *)
Lemma timer_explained_step (cfg : config) (history : list sample)
    (d : distance) (now : R) (g : globals) :
  timer_explained cfg history g ->
  timer_explained cfg (history ++ [(d, now)]) (final (on_distance cfg d now g)).
Proof.
  intros Hinv. unfold timer_explained in *.
  destruct (distance_cases cfg d) as [Hn | [[Hn Ha] | [Hn Ha]]].
  - destruct (screen_locked g) eqn:Hl.
    + now rewrite on_distance_nearby_locked.
    + now rewrite on_distance_nearby_unlocked.
  - now rewrite not_away_clears_timer.
  - destruct (distance_exceed_start_time g) as [t|] eqn:Hs.
    + destruct (Rlt_dec (TIME_THRESHOLD_SECONDS cfg) (now - t)) as [Ht|Ht].
      * rewrite (on_distance_away_expired cfg d now t) by (assumption || lra).
        exact I.
      * rewrite (on_distance_away_waiting cfg d now t) by (assumption || lra).
        unfold final. simpl. rewrite Hs.
        destruct Hinv as (before & d0 & since & Hh & Hall).
        exists before, d0, (since ++ [(d, now)]). split.
        -- rewrite Hh, <- app_assoc. reflexivity.
        -- change ((d0, t) :: since ++ [(d, now)])
             with (((d0, t) :: since) ++ [(d, now)]).
           apply Forall_app. split; [assumption|].
           constructor; [assumption | constructor].
    + rewrite on_distance_away_first by assumption.
      unfold final. simpl.
      exists history, d, []. split; [reflexivity|].
      constructor; [assumption | constructor].
Qed.

(** Every state the callback body can reach from the initial globals has its
    timer explained by the samples that led to it. *)
Lemma timer_explained_feed (cfg : config) (later : list sample) :
  forall (history : list sample) (g : globals),
    timer_explained cfg history g ->
    timer_explained cfg (history ++ later) (snd (feed cfg later g)).
Proof.
  induction later as [|[d now] later IH]; intros history g Hinv.
  - rewrite app_nil_r. exact Hinv.
  - rewrite feed_cons. cbn [snd]. unfold sample in *.
    assert (Hsplit : history ++ (d, now) :: later
                     = (history ++ [(d, now)]) ++ later)
      by (rewrite <- app_assoc; reflexivity).
    rewrite Hsplit. apply IH. now apply timer_explained_step.
Qed.

Lemma timer_explained_reachable (cfg : config) (samples : list sample) :
  timer_explained cfg samples (snd (feed cfg samples initial_globals)).
Proof.
  apply (timer_explained_feed cfg samples [] initial_globals). exact I.
Qed.

(** ** The presence state machine *)

(** C1, as the specification states it, fails on the script: with the
    scenario thresholds, the screen already locked and the timer set at 0, a
    sample at 350 cm processed at 6 runs the lock command again. *)
Lemma lock_only_when_unlocked_fails :
  ~ (forall (cfg : config) (g : globals) (d : distance) (now t : R),
       thresholds_ordered cfg ->
       dist_lt (Finite (DISTANCE_THRESHOLD_CM cfg)) d ->
       distance_exceed_start_time g = Some t ->
       now - t > TIME_THRESHOLD_SECONDS cfg ->
       (screen_locked g = false ->
        emitted (on_distance cfg d now g) = [LockIntent] /\
        screen_locked (final (on_distance cfg d now g)) = true) /\
       (screen_locked g = true ->
        ~ In LockIntent (emitted (on_distance cfg d now g))) /\
       distance_exceed_start_time (final (on_distance cfg d now g)) = None).
Proof.
  intros claim.
  destruct (claim scenario_config
              {| distance_exceed_start_time := Some 0; screen_locked := true |}
              (Finite 350) 6 0) as (_ & Hlocked & _).
  - unfold thresholds_ordered. simpl. lra.
  - simpl. lra.
  - reflexivity.
  - simpl. lra.
  - apply Hlocked; [reflexivity|].
    rewrite (on_distance_away_expired scenario_config (Finite 350) 6 0);
      simpl; try lra; auto.
Qed.

(** C1, amended: when a sample beyond the away threshold arrives with the
    timer set for longer than the away duration, the lock command is run
    whether or not the screen is recorded as locked; afterwards the screen is
    recorded as locked and the timer is cleared. *)
Theorem lock_after_away_duration
    (cfg : config) (g : globals) (d : distance) (now t : R) :
  thresholds_ordered cfg ->
  dist_lt (Finite (DISTANCE_THRESHOLD_CM cfg)) d ->
  distance_exceed_start_time g = Some t ->
  now - t > TIME_THRESHOLD_SECONDS cfg ->
  returned (on_distance cfg d now g) = Ok tt /\
  emitted (on_distance cfg d now g) = [LockIntent] /\
  screen_locked (final (on_distance cfg d now g)) = true /\
  distance_exceed_start_time (final (on_distance cfg d now g)) = None.
Proof.
  intros Ho Ha Hs Ht.
  assert (Hn : dist_lt (Finite (NEARBY_DISTANCE_CM cfg)) d)
    by now apply away_is_not_nearby.
  rewrite (on_distance_away_expired cfg d now t) by assumption.
  repeat split; reflexivity.
Qed.

Lemma lock_after_away_duration_witness :
  thresholds_ordered scenario_config /\
  returned (on_distance scenario_config Infinity 6
              {| distance_exceed_start_time := Some 0; screen_locked := true |})
    = Ok tt /\
  emitted (on_distance scenario_config Infinity 6
             {| distance_exceed_start_time := Some 0; screen_locked := true |})
    = [LockIntent] /\
  screen_locked
    (final (on_distance scenario_config Infinity 6
              {| distance_exceed_start_time := Some 0; screen_locked := true |}))
    = true /\
  distance_exceed_start_time
    (final (on_distance scenario_config Infinity 6
              {| distance_exceed_start_time := Some 0; screen_locked := true |}))
    = None.
Proof.
  assert (Ho : thresholds_ordered scenario_config)
    by (unfold thresholds_ordered; simpl; lra).
  split; [exact Ho|].
  apply (lock_after_away_duration scenario_config _ Infinity 6 0 Ho).
  - exact I.
  - reflexivity.
  - simpl. lra.
Defined.

(** C2: from globals with the timer clear, one sample beyond the away
    threshold followed by one at or below it runs no lock command, at either
    sample, and leaves the timer clear; the times of the two samples do not
    matter. *)
Theorem single_away_sample_never_locks
    (cfg : config) (g : globals) (d1 d2 : distance) (t1 t2 : R) :
  distance_exceed_start_time g = None ->
  dist_lt (Finite (DISTANCE_THRESHOLD_CM cfg)) d1 ->
  dist_le d2 (Finite (DISTANCE_THRESHOLD_CM cfg)) ->
  Forall (fun fired => ~ In LockIntent fired)
         (fst (feed cfg [(d1, t1); (d2, t2)] g)) /\
  List.length (fst (feed cfg [(d1, t1); (d2, t2)] g)) = 2%nat /\
  distance_exceed_start_time (snd (feed cfg [(d1, t1); (d2, t2)] g)) = None.
Proof.
  intros Hs H1 H2. rewrite !feed_cons. cbn [feed fst snd List.length].
  repeat split.
  - constructor; [|constructor; [|constructor]]; intros Hin;
      apply lock_intent_inv in Hin.
    + destruct Hin as (_ & t & Hsome & _). congruence.
    + destruct Hin as (Ha & _).
      apply dist_ltb_false in H2. apply dist_ltb_true in Ha. congruence.
  - now apply not_away_clears_timer.
Qed.

Lemma single_away_sample_never_locks_witness :
  Forall (fun fired => ~ In LockIntent fired)
         (fst (feed scenario_config [(Finite 350, 0); (Finite 300, 1)]
                 initial_globals)) /\
  List.length (fst (feed scenario_config [(Finite 350, 0); (Finite 300, 1)]
                 initial_globals)) = 2%nat /\
  distance_exceed_start_time
    (snd (feed scenario_config [(Finite 350, 0); (Finite 300, 1)]
            initial_globals)) = None.
Proof.
  apply (single_away_sample_never_locks scenario_config initial_globals
           (Finite 350) (Finite 300) 0 1).
  - reflexivity.
  - simpl. lra.
  - simpl. lra.
Defined.

(** C3: a distance above the nearby threshold and at or below the away
    threshold (the away threshold itself included) runs no command, leaves
    the lock flag as it was and clears the timer, whatever the globals. *)
Theorem dead_zone_is_noop
    (cfg : config) (g : globals) (d : distance) (now : R) :
  dist_lt (Finite (NEARBY_DISTANCE_CM cfg)) d ->
  dist_le d (Finite (DISTANCE_THRESHOLD_CM cfg)) ->
  returned (on_distance cfg d now g) = Ok tt /\
  emitted (on_distance cfg d now g) = [] /\
  screen_locked (final (on_distance cfg d now g)) = screen_locked g /\
  distance_exceed_start_time (final (on_distance cfg d now g)) = None.
Proof.
  intros Hn Ha. rewrite on_distance_dead_zone by assumption.
  repeat split; reflexivity.
Qed.

Lemma dead_zone_is_noop_witness :
  returned (on_distance scenario_config (Finite 300) 4
              {| distance_exceed_start_time := Some 0; screen_locked := true |})
    = Ok tt /\
  emitted (on_distance scenario_config (Finite 300) 4
             {| distance_exceed_start_time := Some 0; screen_locked := true |})
    = [] /\
  screen_locked
    (final (on_distance scenario_config (Finite 300) 4
              {| distance_exceed_start_time := Some 0; screen_locked := true |}))
    = true /\
  distance_exceed_start_time
    (final (on_distance scenario_config (Finite 300) 4
              {| distance_exceed_start_time := Some 0; screen_locked := true |}))
    = None.
Proof.
  apply (dead_zone_is_noop scenario_config
           {| distance_exceed_start_time := Some 0; screen_locked := true |}
           (Finite 300) 4).
  - simpl. lra.
  - simpl. lra.
Defined.

(** C4: a distance at or below the nearby threshold (the threshold included)
    clears the timer and runs the unlock command exactly when the screen is
    recorded as locked, recording it as unlocked; with the screen recorded as
    unlocked it runs no command.  Under the scenario thresholds, with the
    screen recorded as locked, two samples at 50 cm two seconds apart unlock
    on the first and do nothing on the second. *)
Theorem nearby_unlocks_iff_locked :
  (forall (cfg : config) (g : globals) (d : distance) (now : R),
     dist_le d (Finite (NEARBY_DISTANCE_CM cfg)) ->
     returned (on_distance cfg d now g) = Ok tt /\
     distance_exceed_start_time (final (on_distance cfg d now g)) = None /\
     screen_locked (final (on_distance cfg d now g)) = false /\
     (In UnlockIntent (emitted (on_distance cfg d now g)) <->
      screen_locked g = true) /\
     (screen_locked g = true ->
      emitted (on_distance cfg d now g) = [UnlockIntent]) /\
     (screen_locked g = false ->
      emitted (on_distance cfg d now g) = [])) /\
  (forall (t : R) (since : option R),
     feed scenario_config [(Finite 50, t); (Finite 50, t + 2)]
       {| distance_exceed_start_time := since; screen_locked := true |} =
     ([[UnlockIntent]; []],
      {| distance_exceed_start_time := None; screen_locked := false |})).
Proof.
  split.
  - intros cfg g d now Hn.
    destruct (screen_locked g) eqn:Hl.
    + rewrite on_distance_nearby_locked by assumption.
      repeat split; try reflexivity; try discriminate.
      intros _. simpl. auto.
    + rewrite on_distance_nearby_unlocked by assumption.
      repeat split; try reflexivity; try discriminate.
      intros Hin. simpl in Hin. contradiction.
  - intros t since.
    rewrite feed_cons.
    rewrite (on_distance_nearby_locked scenario_config (Finite 50) t)
      by (reflexivity || (simpl; lra)).
    unfold final. cbn [fst snd].
    rewrite feed_cons.
    rewrite (on_distance_nearby_unlocked scenario_config (Finite 50) (t + 2))
      by (reflexivity || (simpl; lra)).
    reflexivity.
Qed.

Lemma nearby_unlocks_iff_locked_witness :
  dist_le (Finite 100) (Finite (NEARBY_DISTANCE_CM scenario_config)) /\
  emitted (on_distance scenario_config (Finite 100) 7
             {| distance_exceed_start_time := Some 3; screen_locked := true |})
    = [UnlockIntent] /\
  emitted (on_distance scenario_config (Finite 100) 7 initial_globals) = [].
Proof.
  assert (Hn : dist_le (Finite 100) (Finite (NEARBY_DISTANCE_CM scenario_config)))
    by (simpl; lra).
  split; [exact Hn|]. split.
  - apply (proj1 nearby_unlocks_iff_locked scenario_config
             {| distance_exceed_start_time := Some 3; screen_locked := true |}
             (Finite 100) 7 Hn).
    reflexivity.
  - apply (proj1 nearby_unlocks_iff_locked scenario_config initial_globals
             (Finite 100) 7 Hn).
    reflexivity.
Defined.

(** C5: under the scenario thresholds, from the initial globals, the samples
    350 cm at 0, 400 cm at 3 and 320 cm at 6 run no command at 0 (the timer is
    set to 0) and none at 3 (the timer stays at 0); at 6 the lock command is
    run, the screen is recorded as locked and the timer is cleared. *)
Theorem scenario_sustained_departure :
  feed scenario_config [(Finite 350, 0)] initial_globals =
    ([[]],
     {| distance_exceed_start_time := Some 0; screen_locked := false |}) /\
  feed scenario_config [(Finite 350, 0); (Finite 400, 3)] initial_globals =
    ([[]; []],
     {| distance_exceed_start_time := Some 0; screen_locked := false |}) /\
  feed scenario_config [(Finite 350, 0); (Finite 400, 3); (Finite 320, 6)]
    initial_globals =
    ([[]; []; [LockIntent]],
     {| distance_exceed_start_time := None; screen_locked := true |}).
Proof.
  pose (armed := {| distance_exceed_start_time := Some 0;
                    screen_locked := false |}).
  assert (H0 : on_distance scenario_config (Finite 350) 0 initial_globals =
               (Ok tt, armed, []))
    by (rewrite on_distance_away_first; simpl; auto; lra).
  assert (H3 : on_distance scenario_config (Finite 400) 3 armed =
               (Ok tt, armed, []))
    by (rewrite (on_distance_away_waiting scenario_config (Finite 400) 3 0);
        simpl; auto; lra).
  assert (H6 : on_distance scenario_config (Finite 320) 6 armed =
               (Ok tt,
                {| distance_exceed_start_time := None; screen_locked := true |},
                [Print (UserTooFar (Finite 320));
                 Run ScreensaverLock;
                 Run (NotifySend "AuraLock locked the screen.");
                 Print ScreenLocked]))
    by (rewrite (on_distance_away_expired scenario_config (Finite 320) 6 0);
        simpl; auto; lra).
  repeat split; rewrite !feed_cons; cbn [feed fst snd].
  - rewrite H0. reflexivity.
  - rewrite H0. change (final (Ok tt, armed, [])) with armed.
    rewrite H3. reflexivity.
  - rewrite H0. change (final (Ok tt, armed, [])) with armed.
    rewrite H3. change (final (Ok tt, armed, [])) with armed.
    rewrite H6. reflexivity.
Qed.

(** C6: every step keeps the timer explained by the samples seen (when it is
    set to [t], every sample from the one processed at [t] on was beyond the
    away threshold), and a sample at or below the away threshold, nearby ones
    included, leaves the timer clear. *)
Theorem away_timer_invariant
    (cfg : config) (history : list sample) (g : globals)
    (d : distance) (now : R) :
  (timer_explained cfg history g ->
   timer_explained cfg (history ++ [(d, now)])
     (final (on_distance cfg d now g))) /\
  (dist_le d (Finite (DISTANCE_THRESHOLD_CM cfg)) ->
   distance_exceed_start_time (final (on_distance cfg d now g)) = None).
Proof.
  split.
  - apply timer_explained_step.
  - apply not_away_clears_timer.
Qed.

Lemma away_timer_invariant_witness :
  timer_explained scenario_config [(Finite 350, 0)]
    {| distance_exceed_start_time := Some 0; screen_locked := false |} /\
  timer_explained scenario_config ([(Finite 350, 0)] ++ [(Finite 50, 2)])
    (final (on_distance scenario_config (Finite 50) 2
              {| distance_exceed_start_time := Some 0; screen_locked := false |})) /\
  distance_exceed_start_time
    (final (on_distance scenario_config (Finite 50) 2
              {| distance_exceed_start_time := Some 0; screen_locked := false |}))
    = None.
Proof.
  assert (Hinv : timer_explained scenario_config [(Finite 350, 0)]
                   {| distance_exceed_start_time := Some 0;
                      screen_locked := false |}).
  { exists [], (Finite 350), []. split; [reflexivity|].
    constructor; [simpl; lra | constructor]. }
  split; [exact Hinv|]. split.
  - exact (proj1 (away_timer_invariant scenario_config [(Finite 350, 0)]
                    {| distance_exceed_start_time := Some 0;
                       screen_locked := false |}
                    (Finite 50) 2) Hinv).
  - apply (proj2 (away_timer_invariant scenario_config [(Finite 350, 0)]
                    {| distance_exceed_start_time := Some 0;
                       screen_locked := false |}
                    (Finite 50) 2)).
    simpl. lra.
Defined.

(** C10: with ordered thresholds, a sample beyond the away threshold that
    arrives while the timer is set and has not run for longer than the away
    duration changes nothing: the timer keeps its start time, the lock flag
    is as it was and no command is run. *)
Theorem away_within_window_unchanged
    (cfg : config) (g : globals) (d : distance) (now t : R) :
  thresholds_ordered cfg ->
  dist_lt (Finite (DISTANCE_THRESHOLD_CM cfg)) d ->
  distance_exceed_start_time g = Some t ->
  now - t <= TIME_THRESHOLD_SECONDS cfg ->
  on_distance cfg d now g = (Ok tt, g, []) /\
  distance_exceed_start_time (final (on_distance cfg d now g)) = Some t /\
  screen_locked (final (on_distance cfg d now g)) = screen_locked g /\
  emitted (on_distance cfg d now g) = [].
Proof.
  intros Ho Ha Hs Ht.
  assert (Hn : dist_lt (Finite (NEARBY_DISTANCE_CM cfg)) d)
    by now apply away_is_not_nearby.
  rewrite (on_distance_away_waiting cfg d now t) by assumption.
  repeat split; try reflexivity. exact Hs.
Qed.

Lemma away_within_window_unchanged_witness :
  thresholds_ordered scenario_config /\
  on_distance scenario_config (Finite 400) 5
    {| distance_exceed_start_time := Some 0; screen_locked := false |} =
    (Ok tt,
     {| distance_exceed_start_time := Some 0; screen_locked := false |},
     []).
Proof.
  assert (Ho : thresholds_ordered scenario_config)
    by (unfold thresholds_ordered; simpl; lra).
  split; [exact Ho|].
  apply (away_within_window_unchanged scenario_config
           {| distance_exceed_start_time := Some 0; screen_locked := false |}
           (Finite 400) 5 0 Ho).
  - simpl. lra.
  - reflexivity.
  - simpl. lra.
Defined.

(** ** The distance estimator *)

(** *** The constants of the range *)

Lemma Rpower_10_nat (n : nat) :
  Rpower 10 (IZR (Z.of_nat n)) = IZR (10 ^ Z.of_nat n).
Proof.
  rewrite <- INR_IZR_INZ, Rpower_pow by lra.
  apply pow_IZR.
Qed.

Lemma float_tiny_pos : 0 < float_tiny.
Proof.
  unfold float_tiny. apply Rinv_0_lt_compat.
  apply (IZR_lt 0). apply Z.ltb_lt. vm_compute. reflexivity.
Qed.

Lemma float_tiny_small : float_tiny < 1.
Proof.
  unfold float_tiny.
  apply Rlt_le_trans with (/ 1); [|rewrite Rinv_1; lra].
  apply Rinv_lt_contravar.
  - rewrite Rmult_1_l. apply (IZR_lt 0). apply Z.ltb_lt. vm_compute. reflexivity.
  - apply (IZR_lt 1). apply Z.ltb_lt. vm_compute. reflexivity.
Qed.

Lemma float_max_bound : 1075 <= float_max.
Proof.
  unfold float_max. apply IZR_le. apply Z.leb_le. vm_compute. reflexivity.
Qed.

(** Beyond an exponent of 1024 the power is out of range. *)
Lemma power_overflows (x : R) : 1024 <= x -> float_max < Rpower 10 x.
Proof.
  intros Hx.
  apply Rlt_le_trans with (Rpower 10 1024).
  - change 1024 with (IZR (Z.of_nat 1024)). rewrite Rpower_10_nat.
    unfold float_max. apply IZR_lt. apply Z.ltb_lt. vm_compute. reflexivity.
  - apply Rle_Rpower; lra.
Qed.

(** Below an exponent of -1075 it underflows. *)
Lemma power_underflows (x : R) : x <= -1075 -> Rpower 10 x < float_tiny.
Proof.
  intros Hx.
  apply Rle_lt_trans with (Rpower 10 (Ropp 1075)).
  - apply Rle_Rpower; lra.
  - rewrite Rpower_Ropp.
    change 1075 with (IZR (Z.of_nat 1075)). rewrite Rpower_10_nat.
    unfold float_tiny. apply Rinv_lt_contravar.
    + apply Rmult_lt_0_compat; apply (IZR_lt 0); apply Z.ltb_lt;
        vm_compute; reflexivity.
    + apply IZR_lt. apply Z.ltb_lt. vm_compute. reflexivity.
Qed.

(** Between exponents of -300 and 300 the power and its hundredfold are
    within the range. *)
Lemma power_in_range (x : R) :
  -300 <= x <= 300 ->
  float_tiny < Rpower 10 x /\ Rpower 10 x * 100 <= float_max.
Proof.
  intros [Hlo Hhi]. split.
  - apply Rlt_le_trans with (Rpower 10 (Ropp 300)).
    + rewrite Rpower_Ropp.
      change 300 with (IZR (Z.of_nat 300)). rewrite Rpower_10_nat.
      unfold float_tiny. apply Rinv_lt_contravar.
      * apply Rmult_lt_0_compat; apply (IZR_lt 0); apply Z.ltb_lt;
          vm_compute; reflexivity.
      * apply IZR_lt. apply Z.ltb_lt. vm_compute. reflexivity.
    + apply Rle_Rpower; lra.
  - apply Rle_trans with (Rpower 10 300 * 100).
    + apply Rmult_le_compat_r; [lra|]. apply Rle_Rpower; lra.
    + change 300 with (IZR (Z.of_nat 300)). rewrite Rpower_10_nat.
      unfold float_max. rewrite <- mult_IZR.
      apply IZR_le. apply Z.leb_le. vm_compute. reflexivity.
Qed.

Lemma power_pos (x : R) : 0 < Rpower 10 x.
Proof.
  unfold Rpower. apply exp_pos.
Qed.

(** *** The float operations *)

(** How [10 ** x] comes out. *)
Lemma float_pow10_cases (x : R) :
  (float_max < x /\ float_pow10 x = Ok Infinity) \/
  (x < - float_max /\ float_pow10 x = Ok (Finite 0)) \/
  (- float_max <= x <= float_max /\ float_max < Rpower 10 x /\
   float_pow10 x = Raise OverflowError) \/
  (- float_max <= x <= float_max /\ Rpower 10 x <= float_tiny /\
   float_pow10 x = Ok (Finite 0)) \/
  (- float_max <= x <= float_max /\
   float_tiny < Rpower 10 x <= float_max /\
   float_pow10 x = Ok (Finite (Rpower 10 x))).
Proof.
  unfold float_pow10.
  destruct (Rltb float_max x) eqn:H1.
  { apply Rltb_true in H1. auto. }
  apply Rltb_false in H1.
  destruct (Rltb x (- float_max)) eqn:H2.
  { apply Rltb_true in H2. auto. }
  apply Rltb_false in H2.
  destruct (Rltb float_max (Rpower 10 x)) eqn:H3.
  { apply Rltb_true in H3. right. right. left. auto. }
  apply Rltb_false in H3.
  destruct (Rleb (Rpower 10 x) float_tiny) eqn:H4.
  { apply Rleb_true in H4. right. right. right. left. auto. }
  apply Rleb_false in H4. right. right. right. right. auto.
Qed.

Lemma float_pow10_in_range (x : R) :
  float_tiny < Rpower 10 x ->
  Rpower 10 x <= float_max ->
  float_pow10 x = Ok (Finite (Rpower 10 x)).
Proof.
  intros Hlo Hhi.
  pose proof float_max_bound as Hmax.
  destruct (float_pow10_cases x)
    as [[Hx E] | [[Hx E] | [(_ & Hp & E) | [(_ & Hp & E) | (_ & _ & E)]]]];
    try lra; try exact E.
  - pose proof (power_overflows x). lra.
  - pose proof (power_underflows x). lra.
Qed.

Lemma float_pow10_overflow (x : R) :
  - float_max <= x <= float_max ->
  float_max < Rpower 10 x ->
  float_pow10 x = Raise OverflowError.
Proof.
  intros Hx Hp.
  pose proof float_tiny_small as Htiny. pose proof float_max_bound as Hmax.
  destruct (float_pow10_cases x)
    as [[Hx' E] | [[Hx' E] | [(_ & _ & E) | [(_ & Hp' & E) | (_ & Hp' & E)]]]];
    try lra; exact E.
Qed.

(** [10 ** x] raises nothing but [OverflowError], and what it returns is not
    negative. *)
Lemma float_pow10_result (x : R) :
  float_pow10 x = Raise OverflowError \/
  exists m, float_pow10 x = Ok m /\ dist_le (Finite 0) m.
Proof.
  pose proof float_tiny_pos as Htiny.
  destruct (float_pow10_cases x)
    as [[_ E] | [[_ E] | [(_ & _ & E) | [(_ & _ & E) | (_ & Hp & E)]]]];
    rewrite E; auto; right; eexists; split; try reflexivity; simpl; lra.
Qed.

(** [10 ** x] does not decrease when [x] grows. *)
Lemma float_pow10_monotone (x1 x2 : R) (m1 m2 : distance) :
  x2 <= x1 ->
  float_pow10 x1 = Ok m1 ->
  float_pow10 x2 = Ok m2 ->
  dist_le m2 m1.
Proof.
  intros Hx E1 E2.
  pose proof float_tiny_pos as Htiny.
  pose proof float_tiny_small as Hsmall. pose proof float_max_bound as Hmax.
  assert (Hp : Rpower 10 x2 <= Rpower 10 x1) by (apply Rle_Rpower; lra).
  destruct (float_pow10_cases x1)
    as [[H1 F1] | [[H1 F1] | [(H1 & P1 & F1) | [(H1 & P1 & F1) | (H1 & P1 & F1)]]]];
    rewrite F1 in E1; try discriminate; injection E1 as <-;
    destruct (float_pow10_cases x2)
      as [[H2 F2] | [[H2 F2] | [(H2 & P2 & F2) | [(H2 & P2 & F2) | (H2 & P2 & F2)]]]];
    rewrite F2 in E2; try discriminate; injection E2 as <-;
    simpl; try exact I; lra.
Qed.

Lemma float_mul_100_monotone (m1 m2 : distance) :
  dist_le m2 m1 -> dist_le (float_mul_100 m2) (float_mul_100 m1).
Proof.
  destruct m1 as [r1|], m2 as [r2|]; simpl; intros Hle;
    try exact I; try contradiction.
  - destruct (Rltb float_max (r1 * 100)) eqn:H1;
      destruct (Rltb float_max (r2 * 100)) eqn:H2; simpl; try exact I.
    + apply Rltb_false in H1. apply Rltb_true in H2. lra.
    + lra.
  - destruct (Rltb float_max (r2 * 100)); exact I.
Qed.

Lemma float_mul_100_nonneg (m : distance) :
  dist_le (Finite 0) m -> dist_le (Finite 0) (float_mul_100 m).
Proof.
  destruct m as [r|]; simpl; intros Hle; [|exact I].
  destruct (Rltb float_max (r * 100)); simpl; [exact I | lra].
Qed.

(** *** The estimator *)

(** Past the two tests the estimate is the power, times 100. *)
Lemma rssi_to_distance_unfold (cfg : config) (s : R) :
  s <> 0 ->
  PATH_LOSS_EXPONENT cfg <> 0 ->
  rssi_to_distance cfg s =
    match float_pow10 ((RSSI_AT_1M cfg - s) / (10 * PATH_LOSS_EXPONENT cfg)) with
    | Raise e => Raise e
    | Ok m => Ok (float_mul_100 m)
    end.
Proof.
  intros Hs Hp. unfold rssi_to_distance.
  apply Reqb_false in Hs. rewrite Hs.
  assert (Hd : Reqb (10 * PATH_LOSS_EXPONENT cfg) 0 = false)
    by (apply Reqb_false; lra).
  rewrite Hd. reflexivity.
Qed.

(** Within the range the estimate is the path loss formula. *)
Lemma rssi_to_distance_formula (cfg : config) (s : R) :
  s <> 0 ->
  PATH_LOSS_EXPONENT cfg <> 0 ->
  float_tiny <
    Rpower 10 ((RSSI_AT_1M cfg - s) / (10 * PATH_LOSS_EXPONENT cfg)) ->
  Rpower 10 ((RSSI_AT_1M cfg - s) / (10 * PATH_LOSS_EXPONENT cfg)) * 100
    <= float_max ->
  rssi_to_distance cfg s =
    Ok (Finite (Rpower 10 ((RSSI_AT_1M cfg - s) / (10 * PATH_LOSS_EXPONENT cfg))
                * 100)).
Proof.
  intros Hs Hp Hlo Hhi. rewrite rssi_to_distance_unfold by assumption.
  pose proof (power_pos ((RSSI_AT_1M cfg - s) / (10 * PATH_LOSS_EXPONENT cfg))).
  rewrite float_pow10_in_range by lra.
  unfold float_mul_100.
  apply Rltb_false in Hhi. rewrite Hhi. reflexivity.
Qed.


(** Lines 33-34 come before any arithmetic. *)
Lemma rssi_to_distance_sentinel (cfg : config) (s : R) :
  s = 0 -> rssi_to_distance cfg s = Ok Infinity.
Proof.
  intros Hs. unfold rssi_to_distance.
  apply Reqb_true in Hs. rewrite Hs. reflexivity.
Qed.


(** An estimate is never negative. *)
Lemma estimate_nonnegative (cfg : config) (s : R) (d : distance) :
  rssi_to_distance cfg s = Ok d -> dist_le (Finite 0) d.
Proof.
  unfold rssi_to_distance.
  destruct (Reqb s 0); [intros H; injection H as <-; exact I|].
  destruct (Reqb (10 * PATH_LOSS_EXPONENT cfg) 0); [discriminate|].
  destruct (float_pow10_result
              ((RSSI_AT_1M cfg - s) / (10 * PATH_LOSS_EXPONENT cfg)))
    as [E | (m & E & Hm)]; rewrite E; [discriminate|].
  intros H. injection H as <-. now apply float_mul_100_nonneg.
Qed.

(** For a positive exponent the estimate does not grow with the signal
    strength, the second signal strength not being the sentinel. *)
Lemma estimate_nonincreasing (cfg : config) (s1 s2 : R) (d1 d2 : distance) :
  0 < PATH_LOSS_EXPONENT cfg ->
  s2 <> 0 ->
  s1 < s2 ->
  rssi_to_distance cfg s1 = Ok d1 ->
  rssi_to_distance cfg s2 = Ok d2 ->
  dist_le d2 d1.
Proof.
  intros Hp H2 Hlt E1 E2.
  destruct (Req_dec_T s1 0) as [H1 | H1].
  - rewrite rssi_to_distance_sentinel in E1 by assumption.
    injection E1 as <-. destruct d2; exact I.
  - rewrite rssi_to_distance_unfold in E1, E2 by lra.
    destruct (float_pow10
                ((RSSI_AT_1M cfg - s1) / (10 * PATH_LOSS_EXPONENT cfg)))
      as [m1|] eqn:F1; [|discriminate].
    destruct (float_pow10
                ((RSSI_AT_1M cfg - s2) / (10 * PATH_LOSS_EXPONENT cfg)))
      as [m2|] eqn:F2; [|discriminate].
    injection E1 as <-. injection E2 as <-.
    apply float_mul_100_monotone.
    apply (float_pow10_monotone
             ((RSSI_AT_1M cfg - s1) / (10 * PATH_LOSS_EXPONENT cfg))
             ((RSSI_AT_1M cfg - s2) / (10 * PATH_LOSS_EXPONENT cfg)));
      try assumption.
    unfold Rdiv. apply Rmult_le_compat_r; [|lra].
    apply Rlt_le, Rinv_0_lt_compat. lra.
Qed.

(** With the exponent 1/128 a signal strength of -100 asks for [10 ** 512],
    which is beyond the doubles ... *)
Lemma steep_config_overflows :
  rssi_to_distance steep_config (-100) = Raise OverflowError.
Proof.
  rewrite rssi_to_distance_unfold by (simpl; lra).
  replace ((RSSI_AT_1M steep_config - -100)
           / (10 * PATH_LOSS_EXPONENT steep_config)) with 512
    by (simpl; field).
  rewrite float_pow10_overflow; [reflexivity | |].
  - pose proof float_max_bound. lra.
  - change 512 with (IZR (Z.of_nat 512)). rewrite Rpower_10_nat.
    unfold float_max. apply IZR_lt. apply Z.ltb_lt. vm_compute. reflexivity.
Qed.

(** ... and a signal strength of -20 asks for [10 ** -512], which is 0.0. *)
Lemma steep_config_underflows :
  rssi_to_distance steep_config (-20) = Ok (Finite 0).
Proof.
  rewrite rssi_to_distance_unfold by (simpl; lra).
  replace ((RSSI_AT_1M steep_config - -20)
           / (10 * PATH_LOSS_EXPONENT steep_config)) with (Ropp 512)
    by (simpl; field).
  assert (Hp : Rpower 10 (Ropp 512) <= float_tiny).
  { apply Rle_trans with (Rpower 10 (Ropp 1075) * 0 + Rpower 10 (Ropp 512));
      [lra|].
    rewrite Rmult_0_r, Rplus_0_l. rewrite Rpower_Ropp.
    change 512 with (IZR (Z.of_nat 512)). rewrite Rpower_10_nat.
    unfold float_tiny. apply Rlt_le, Rinv_lt_contravar.
    - apply Rmult_lt_0_compat; apply (IZR_lt 0); apply Z.ltb_lt;
        vm_compute; reflexivity.
    - apply IZR_lt. apply Z.ltb_lt. vm_compute. reflexivity. }
  pose proof float_max_bound as Hmax. pose proof float_tiny_small as Hsmall.
  pose proof (power_pos (Ropp 512)) as Hpos.
  destruct (float_pow10_cases (Ropp 512))
    as [[Hx E] | [[Hx E] | [(_ & Hq & E) | [(_ & Hq & E) | (_ & Hq & E)]]]];
    try lra; rewrite E; simpl.
  destruct (Rltb float_max (0 * 100)) eqn:Hm.
  - apply Rltb_true in Hm. lra.
  - do 2 f_equal. lra.
Qed.

(** C7: whatever the calibration, a zero exponent included, the estimate for
    a signal strength of 0 is infinity. *)
Theorem sentinel_is_infinite (cfg : config) :
  rssi_to_distance cfg 0 = Ok Infinity.
Proof.
  now apply rssi_to_distance_sentinel.
Qed.




(** C9, as the specification states it, fails on the script: calibrated at
    -60 with exponent 2, the signal strengths -1 and 0 are in order but the
    estimate for -1 does not exceed the estimate for 0, which is
    infinity. *)
Lemma strictly_decreasing_fails_at_sentinel :
  ~ (forall (cfg : config) (s1 s2 : R),
       0 < PATH_LOSS_EXPONENT cfg ->
       s1 < s2 ->
       match rssi_to_distance cfg s1, rssi_to_distance cfg s2 with
       | Ok d1, Ok d2 => dist_lt d2 d1
       | _, _ => False
       end).
Proof.
  intros claim.
  specialize (claim scenario_config (-1) 0).
  rewrite (rssi_to_distance_sentinel scenario_config 0) in claim by reflexivity.
  destruct (rssi_to_distance scenario_config (-1)) as [[r|]|e];
    simpl in claim; apply claim; simpl; lra.
Qed.

(** C9, amended: for a positive path loss exponent whose tenfold is within
    the range of the doubles, the estimate does not grow with the signal
    strength: of two signal strengths in order, the second not being 0, the
    first gets an estimate at least as large as the second whenever both are
    estimated (neither raises [OverflowError]).  The order is not strict on
    doubles, where close estimates round to the same number. *)
Theorem estimate_decreases_off_sentinel
    (cfg : config) (s1 s2 : R) (d1 d2 : distance) :
  0 < PATH_LOSS_EXPONENT cfg ->
  within_range (10 * PATH_LOSS_EXPONENT cfg) ->
  s2 <> 0 ->
  s1 < s2 ->
  rssi_to_distance cfg s1 = Ok d1 ->
  rssi_to_distance cfg s2 = Ok d2 ->
  dist_le d2 d1.
Proof.
  intros Hp _ H2 Hlt E1 E2.
  exact (estimate_nonincreasing cfg s1 s2 d1 d2 Hp H2 Hlt E1 E2).
Qed.

Lemma estimate_decreases_off_sentinel_witness :
  dist_le
    (Finite (Rpower 10 ((RSSI_AT_1M scenario_config - -50)
                        / (10 * PATH_LOSS_EXPONENT scenario_config)) * 100))
    (Finite (Rpower 10 ((RSSI_AT_1M scenario_config - -70)
                        / (10 * PATH_LOSS_EXPONENT scenario_config)) * 100)).
Proof.
  apply (estimate_decreases_off_sentinel scenario_config (-70) (-50)).
  - simpl. lra.
  - unfold within_range. simpl. pose proof float_max_bound. lra.
  - lra.
  - lra.
  - apply rssi_to_distance_formula; try (simpl; lra);
      apply power_in_range; simpl; lra.
  - apply rssi_to_distance_formula; try (simpl; lra);
      apply power_in_range; simpl; lra.
Defined.

(** ** Beyond the specification: the callback over a stream *)

(** The outcome of the callback body, case by case, as an equation [E]. *)
Ltac body_cases cfg d now g :=
  let Hn := fresh "Hn" in
  let Ha := fresh "Ha" in
  let Hl := fresh "Hl" in
  let Hs := fresh "Hs" in
  let Ht := fresh "Ht" in
  let t := fresh "t" in
  destruct (distance_cases cfg d) as [Hn | [[Hn Ha] | [Hn Ha]]];
  [ destruct (screen_locked g) eqn:Hl;
    [ pose proof (on_distance_nearby_locked cfg d now g Hn Hl) as E
    | pose proof (on_distance_nearby_unlocked cfg d now g Hn Hl) as E ]
  | pose proof (on_distance_dead_zone cfg d now g Hn Ha) as E
  | destruct (distance_exceed_start_time g) as [t|] eqn:Hs;
    [ destruct (Rlt_dec (TIME_THRESHOLD_SECONDS cfg) (now - t)) as [Ht|Ht];
      [ pose proof (on_distance_away_expired cfg d now t g Hn Ha Hs
                      (Rlt_gt _ _ Ht)) as E
      | pose proof (on_distance_away_waiting cfg d now t g Hn Ha Hs
                      (Rnot_lt_le _ _ Ht)) as E ]
    | pose proof (on_distance_away_first cfg d now g Hn Ha Hs) as E ] ].

Lemma intents_app (tr1 tr2 : list event) :
  intents (tr1 ++ tr2) = intents tr1 ++ intents tr2.
Proof.
  induction tr1 as [|e tr1 IH]; simpl; [reflexivity|].
  destruct (intent_of e); simpl; now rewrite IH.
Qed.

Lemma replay_app (locked : bool) (fired1 fired2 : list intent) :
  replay locked (fired1 ++ fired2) =
    match replay locked fired1 with
    | Some locked' => replay locked' fired2
    | None => None
    end.
Proof.
  revert locked. induction fired1 as [|i fired1 IH]; intros locked; simpl.
  - reflexivity.
  - destruct i; [apply IH|]. destruct locked; [apply IH | reflexivity].
Qed.

Lemma scan_cons (cfg : config) (device : BLEDevice) (data : AdvertisementData)
    (now : R) (rest : list advertisement) (g : globals) :
  scan cfg ((device, data, now) :: rest) g =
    (trace (detection_callback cfg device data now g)
       ++ fst (scan cfg rest (final (detection_callback cfg device data now g))),
     snd (scan cfg rest (final (detection_callback cfg device data now g)))).
Proof.
  cbn [scan].
  destruct (scan cfg rest (final (detection_callback cfg device data now g))).
  reflexivity.
Qed.

(** The callback on one advertisement: it ignores it, raises before doing
    anything, or logs the estimate and runs the body. *)
Lemma detection_callback_cases (cfg : config)
    (device : BLEDevice) (data : AdvertisementData) (now : R) (g : globals) :
  detection_callback cfg device data now g = (Ok tt, g, []) \/
  (exists e, detection_callback cfg device data now g = (Raise e, g, [])) \/
  (exists d,
     address device = TARGET_MAC_ADDRESS cfg /\
     rssi_to_distance cfg (rssi data) = Ok d /\
     detection_callback cfg device data now g =
       (returned (on_distance cfg d now g),
        final (on_distance cfg d now g),
        Print (DeviceFound device (rssi data) d)
          :: trace (on_distance cfg d now g))).
Proof.
  destruct (String.eqb (address device) (TARGET_MAC_ADDRESS cfg)) eqn:Ha.
  - apply String.eqb_eq in Ha.
    destruct (rssi_to_distance cfg (rssi data)) as [d|e] eqn:Hd.
    + right. right. exists d. repeat split; auto.
      now apply detection_callback_target.
    + right. left. exists e. now apply detection_callback_raises.
  - left. apply String.eqb_neq in Ha. now apply detection_callback_other.
Qed.

Lemma on_distance_replay (cfg : config) (d : distance) (now : R) (g : globals) :
  replay (screen_locked g) (emitted (on_distance cfg d now g)) =
    Some (screen_locked (final (on_distance cfg d now g))).
Proof.
  body_cases cfg d now g; rewrite E; unfold emitted, final; simpl;
    try rewrite Hl; reflexivity.
Qed.

Lemma detection_callback_replay (cfg : config)
    (device : BLEDevice) (data : AdvertisementData) (now : R) (g : globals) :
  replay (screen_locked g) (emitted (detection_callback cfg device data now g)) =
    Some (screen_locked (final (detection_callback cfg device data now g))).
Proof.
  destruct (detection_callback_cases cfg device data now g)
    as [E | [[e E] | (d & _ & _ & E)]]; rewrite E; try reflexivity.
  apply (on_distance_replay cfg d now g).
Qed.

(** X1: advertisements of other devices are transparent: a stream with them
    and the same stream without them run and print the same and leave the
    same globals. *)
Theorem other_devices_are_ignored
    (cfg : config) (ads : list advertisement) (g : globals) :
  scan cfg ads g = scan cfg (filter (from_target cfg) ads) g.
Proof.
  revert g. induction ads as [|[[device data] now] ads IH]; intros g.
  - reflexivity.
  - cbn [filter]. unfold from_target at 1. cbn [fst].
    destruct (String.eqb (address device) (TARGET_MAC_ADDRESS cfg)) eqn:Ha.
    + rewrite !scan_cons, IH. reflexivity.
    + rewrite scan_cons.
      apply String.eqb_neq in Ha.
      rewrite (detection_callback_other cfg device data now g Ha).
      unfold final, trace. cbn [fst snd app].
      rewrite <- IH. destruct (scan cfg ads g). reflexivity.
Qed.

(** X2: the lock flag follows the screensaver commands the script runs:
    over any stream, replaying the commands from the flag at the start gives
    the flag at the end, so the unlock command is only ever run on a lock the
    script has put on itself and not yet taken off; from the initial globals
    the first screensaver command is never the unlock. *)
Theorem lock_flag_tracks_commands
    (cfg : config) (ads : list advertisement) (g : globals) :
  replay (screen_locked g) (intents (fst (scan cfg ads g))) =
    Some (screen_locked (snd (scan cfg ads g))) /\
  hd_error (intents (fst (scan cfg ads initial_globals))) <> Some UnlockIntent.
Proof.
  assert (Hreplay : forall ads g,
             replay (screen_locked g) (intents (fst (scan cfg ads g))) =
               Some (screen_locked (snd (scan cfg ads g)))).
  { clear. intros ads. induction ads as [|[[device data] now] ads IH]; intros g.
    - reflexivity.
    - rewrite scan_cons. cbn [fst snd].
      rewrite intents_app, replay_app.
      fold (emitted (detection_callback cfg device data now g)).
      rewrite detection_callback_replay. apply IH. }
  split; [apply Hreplay|].
  specialize (Hreplay ads initial_globals).
  destruct (intents (fst (scan cfg ads initial_globals))) as [|[|] fired];
    simpl in *; discriminate.
Qed.

(** ** Beyond the specification: the callback body over samples *)

Lemma feed_app (cfg : config) (first second : list sample) (g : globals) :
  feed cfg (first ++ second) g =
    (fst (feed cfg first g) ++ fst (feed cfg second (snd (feed cfg first g))),
     snd (feed cfg second (snd (feed cfg first g)))).
Proof.
  revert g. induction first as [|[d now] first IH]; intros g.
  - cbn [app feed fst snd]. now destruct (feed cfg second g).
  - cbn [app]. rewrite !feed_cons, IH. reflexivity.
Qed.

Lemma feed_length (cfg : config) (samples : list sample) (g : globals) :
  List.length (fst (feed cfg samples g)) = List.length samples.
Proof.
  revert g. induction samples as [|[d now] samples IH]; intros g.
  - reflexivity.
  - rewrite feed_cons. cbn [fst List.length]. now rewrite IH.
Qed.

(** While the timer is set and has not run out, samples beyond the away
    threshold pass without a trace. *)
Lemma feed_waiting (cfg : config) (t0 : R) (mid : list sample) (g : globals) :
  thresholds_ordered cfg ->
  distance_exceed_start_time g = Some t0 ->
  Forall (fun s : sample =>
            dist_lt (Finite (DISTANCE_THRESHOLD_CM cfg)) (fst s) /\
            snd s - t0 <= TIME_THRESHOLD_SECONDS cfg) mid ->
  feed cfg mid g = (repeat [] (List.length mid), g).
Proof.
  intros Ho Hs Hmid. induction Hmid as [|[d now] mid [Ha Ht] _ IH].
  - reflexivity.
  - cbn [fst snd] in Ha, Ht. rewrite feed_cons.
    rewrite (on_distance_away_waiting cfg d now t0 g); auto.
    + change (final (Ok tt, g, [])) with g. rewrite IH. reflexivity.
    + now apply away_is_not_nearby.
Qed.

(** A lock command leaves the timer clear. *)
Lemma lock_clears_timer (cfg : config) (d : distance) (now : R) (g : globals) :
  In LockIntent (emitted (on_distance cfg d now g)) ->
  distance_exceed_start_time (final (on_distance cfg d now g)) = None.
Proof.
  body_cases cfg d now g; rewrite E; unfold emitted, final; simpl;
    intros Hin; try reflexivity; intuition discriminate.
Qed.

(** X3: the lock command is run only on a sustained departure: if, after
    any samples from the initial globals, a sample makes the script lock,
    then the samples end with a run that started longer ago than the away
    duration and in which every distance, that of the locking sample
    included, was beyond the away threshold. *)
Theorem lock_needs_sustained_departure
    (cfg : config) (samples : list sample) (d : distance) (now : R) :
  In LockIntent
     (emitted (on_distance cfg d now (snd (feed cfg samples initial_globals)))) ->
  exists (before : list sample) (d0 : distance) (t : R) (since : list sample),
    samples = before ++ (d0, t) :: since /\
    Forall (fun s : sample =>
              dist_lt (Finite (DISTANCE_THRESHOLD_CM cfg)) (fst s))
           ((d0, t) :: since ++ [(d, now)]) /\
    now - t > TIME_THRESHOLD_SECONDS cfg.
Proof.
  intros Hin. apply lock_intent_inv in Hin.
  destruct Hin as (Ha & t & Hs & Ht).
  pose proof (timer_explained_reachable cfg samples) as Hinv.
  unfold timer_explained in Hinv. rewrite Hs in Hinv.
  destruct Hinv as (before & d0 & since & Hsplit & Hall).
  exists before, d0, t, since. repeat split; auto.
  change ((d0, t) :: since ++ [(d, now)])
    with (((d0, t) :: since) ++ [(d, now)]).
  apply Forall_app. split; [assumption|].
  constructor; [assumption | constructor].
Qed.

Lemma lock_needs_sustained_departure_witness :
  exists (before : list sample) (d0 : distance) (t : R) (since : list sample),
    [(Finite 350, 0)] = before ++ (d0, t) :: since /\
    Forall (fun s : sample =>
              dist_lt (Finite (DISTANCE_THRESHOLD_CM scenario_config)) (fst s))
           ((d0, t) :: since ++ [(Finite 400, 6)]) /\
    6 - t > TIME_THRESHOLD_SECONDS scenario_config.
Proof.
  apply (lock_needs_sustained_departure scenario_config
           [(Finite 350, 0)] (Finite 400) 6).
  rewrite feed_cons. cbn [feed snd].
  rewrite (on_distance_away_first scenario_config (Finite 350) 0 initial_globals)
    by (reflexivity || (simpl; lra)).
  unfold final. cbn [fst snd].
  rewrite (on_distance_away_expired scenario_config (Finite 400) 6 0)
    by (reflexivity || (simpl; lra)).
  unfold emitted, trace. simpl. auto.
Defined.

(** X4: a sustained departure does lock, once and at the first sample past
    the window: with ordered thresholds and the timer clear, if every sample
    is beyond the away threshold, those after the first come within the away
    duration of the first and the last one comes later than that, then no
    sample but the last runs a command, the last runs the lock command, and
    the timer is clear again. *)
Theorem sustained_departure_locks
    (cfg : config) (g : globals) (d0 : distance) (t0 : R)
    (mid : list sample) (d : distance) (now : R) :
  thresholds_ordered cfg ->
  distance_exceed_start_time g = None ->
  dist_lt (Finite (DISTANCE_THRESHOLD_CM cfg)) d0 ->
  Forall (fun s : sample =>
            dist_lt (Finite (DISTANCE_THRESHOLD_CM cfg)) (fst s) /\
            snd s - t0 <= TIME_THRESHOLD_SECONDS cfg) mid ->
  dist_lt (Finite (DISTANCE_THRESHOLD_CM cfg)) d ->
  now - t0 > TIME_THRESHOLD_SECONDS cfg ->
  feed cfg ((d0, t0) :: mid ++ [(d, now)]) g =
    (repeat [] (S (List.length mid)) ++ [[LockIntent]],
     {| distance_exceed_start_time := None; screen_locked := true |}).
Proof.
  intros Ho Hs H0 Hmid Ha Ht.
  rewrite feed_cons.
  rewrite (on_distance_away_first cfg d0 t0 g);
    auto using away_is_not_nearby.
  unfold final, emitted, trace. cbn [fst snd intents].
  rewrite feed_app.
  rewrite (feed_waiting cfg t0 mid) by (auto || reflexivity).
  cbn [fst snd]. rewrite feed_cons.
  rewrite (on_distance_away_expired cfg d now t0);
    auto using away_is_not_nearby.
Qed.

Lemma sustained_departure_locks_witness :
  feed scenario_config
    ((Finite 350, 0) :: [(Finite 400, 3); (Infinity, 5)] ++ [(Finite 320, 6)])
    initial_globals =
    (repeat [] 3 ++ [[LockIntent]],
     {| distance_exceed_start_time := None; screen_locked := true |}).
Proof.
  apply (sustained_departure_locks scenario_config initial_globals
           (Finite 350) 0 [(Finite 400, 3); (Infinity, 5)] (Finite 320) 6).
  - unfold thresholds_ordered. simpl. lra.
  - reflexivity.
  - simpl. lra.
  - repeat constructor; simpl; lra.
  - simpl. lra.
  - simpl. lra.
Defined.

(** X5: lock commands are spaced by more than the away duration: if a
    sample processed at [t1] makes the script lock and, after further samples
    none of which is processed before [t1], a sample processed at [t2] makes
    it lock again, then there was a sample in between and [t2 - t1] exceeds
    the away duration.  In particular two samples in a row never both
    lock. *)
Theorem lock_commands_are_spaced
    (cfg : config) (g : globals) (d1 : distance) (t1 : R)
    (later : list sample) (d2 : distance) (t2 : R) :
  In LockIntent (emitted (on_distance cfg d1 t1 g)) ->
  Forall (fun s : sample => t1 <= snd s) later ->
  In LockIntent
     (emitted (on_distance cfg d2 t2
                 (snd (feed cfg later (final (on_distance cfg d1 t1 g)))))) ->
  later <> [] /\ t2 - t1 > TIME_THRESHOLD_SECONDS cfg.
Proof.
  intros H1 Hlater H2.
  apply lock_clears_timer in H1.
  apply lock_intent_inv in H2. destruct H2 as (_ & t & Hs & Ht).
  pose proof (timer_explained_feed cfg later []
                (final (on_distance cfg d1 t1 g))) as Hinv.
  unfold timer_explained at 1 in Hinv. rewrite H1 in Hinv.
  specialize (Hinv I). unfold timer_explained in Hinv.
  rewrite Hs in Hinv. cbn [app] in Hinv.
  destruct Hinv as (before & d0 & since & Hsplit & _).
  split.
  - rewrite Hsplit. destruct before; discriminate.
  - assert (Hin : In (d0, t) later)
      by (rewrite Hsplit; apply in_or_app; right; left; reflexivity).
    rewrite Forall_forall in Hlater. apply Hlater in Hin.
    cbn [snd] in Hin. lra.
Qed.

Lemma lock_commands_are_spaced_witness :
  [(Finite 350, 7)] <> [] /\ 13 - 6 > TIME_THRESHOLD_SECONDS scenario_config.
Proof.
  assert (E1 : on_distance scenario_config (Finite 350) 6
                 {| distance_exceed_start_time := Some 0;
                    screen_locked := false |} =
               (Ok tt,
                {| distance_exceed_start_time := None; screen_locked := true |},
                [Print (UserTooFar (Finite 350));
                 Run ScreensaverLock;
                 Run (NotifySend "AuraLock locked the screen.");
                 Print ScreenLocked]))
    by (rewrite (on_distance_away_expired scenario_config (Finite 350) 6 0);
        simpl; auto; lra).
  apply (lock_commands_are_spaced scenario_config
           {| distance_exceed_start_time := Some 0; screen_locked := false |}
           (Finite 350) 6 [(Finite 350, 7)] (Finite 350) 13).
  - rewrite E1. unfold emitted, trace. simpl. auto.
  - repeat constructor. simpl. lra.
  - rewrite E1. unfold final. cbn [fst snd].
    rewrite feed_cons. cbn [feed snd].
    rewrite (on_distance_away_first scenario_config (Finite 350) 7)
      by (reflexivity || (simpl; lra)).
    unfold final. cbn [fst snd].
    rewrite (on_distance_away_expired scenario_config (Finite 350) 13 7)
      by (reflexivity || (simpl; lra)).
    unfold emitted, trace. simpl. auto.
Defined.

(** A nearby sample leaves the globals as they are when the scan starts. *)
Lemma nearby_resets (cfg : config) (d : distance) (now : R) (g : globals) :
  dist_le d (Finite (NEARBY_DISTANCE_CM cfg)) ->
  final (on_distance cfg d now g) = initial_globals.
Proof.
  intros Hn. destruct (screen_locked g) eqn:Hl.
  - now rewrite on_distance_nearby_locked.
  - now rewrite on_distance_nearby_unlocked.
Qed.

(** X6: a nearby sample wipes the past: whatever the globals and the samples
    before it, the samples after a nearby one are answered, and leave the
    globals, exactly as they would from the initial globals. *)
Theorem nearby_forgets_history
    (cfg : config) (g : globals) (before : list sample)
    (d : distance) (t : R) (after : list sample) :
  dist_le d (Finite (NEARBY_DISTANCE_CM cfg)) ->
  snd (feed cfg (before ++ (d, t) :: after) g) =
    snd (feed cfg after initial_globals) /\
  skipn (S (List.length before)) (fst (feed cfg (before ++ (d, t) :: after) g)) =
    fst (feed cfg after initial_globals).
Proof.
  intros Hn. rewrite feed_app, feed_cons. cbn [fst snd].
  rewrite nearby_resets by assumption. split; [reflexivity|].
  rewrite <- (feed_length cfg before g).
  generalize (fst (feed cfg before g)) as answers.
  induction answers as [|a answers IH]; [reflexivity | exact IH].
Qed.

Lemma nearby_forgets_history_witness :
  snd (feed scenario_config
         ([(Finite 350, 0)] ++ (Finite 100, 2) :: [(Finite 350, 3)])
         {| distance_exceed_start_time := None; screen_locked := true |}) =
    snd (feed scenario_config [(Finite 350, 3)] initial_globals) /\
  skipn 2
    (fst (feed scenario_config
            ([(Finite 350, 0)] ++ (Finite 100, 2) :: [(Finite 350, 3)])
            {| distance_exceed_start_time := None; screen_locked := true |})) =
    fst (feed scenario_config [(Finite 350, 3)] initial_globals).
Proof.
  apply (nearby_forgets_history scenario_config
           {| distance_exceed_start_time := None; screen_locked := true |}
           [(Finite 350, 0)] (Finite 100) 2 [(Finite 350, 3)]).
  simpl. lra.
Defined.

(** ** Beyond the specification: the estimator inside the callback *)

(** The unlock command is run only on line 63: the distance is nearby and
    the screen is recorded as locked. *)
Lemma unlock_intent_inv (cfg : config) (d : distance) (now : R) (g : globals) :
  In UnlockIntent (emitted (on_distance cfg d now g)) ->
  dist_le d (Finite (NEARBY_DISTANCE_CM cfg)) /\ screen_locked g = true.
Proof.
  body_cases cfg d now g; rewrite E; unfold emitted, trace; simpl;
    intros Hin; auto; intuition discriminate.
Qed.

(** X7: a signal strength of 0 from the target device counts as beyond the
    away threshold, whatever the calibration and the (finite) thresholds:
    the callback returns, never unlocks, starts the timer if it is clear,
    locks if it has run for longer than the away duration and otherwise
    leaves the globals alone. *)
Theorem zero_rssi_counts_as_away
    (cfg : config) (device : BLEDevice) (data : AdvertisementData)
    (now : R) (g : globals) :
  address device = TARGET_MAC_ADDRESS cfg ->
  rssi data = 0 ->
  returned (detection_callback cfg device data now g) = Ok tt /\
  ~ In UnlockIntent (emitted (detection_callback cfg device data now g)) /\
  (distance_exceed_start_time g = None ->
   final (detection_callback cfg device data now g) =
     {| distance_exceed_start_time := Some now;
        screen_locked := screen_locked g |} /\
   emitted (detection_callback cfg device data now g) = []) /\
  (forall t, distance_exceed_start_time g = Some t ->
             now - t > TIME_THRESHOLD_SECONDS cfg ->
   final (detection_callback cfg device data now g) =
     {| distance_exceed_start_time := None; screen_locked := true |} /\
   emitted (detection_callback cfg device data now g) = [LockIntent]) /\
  (forall t, distance_exceed_start_time g = Some t ->
             now - t <= TIME_THRESHOLD_SECONDS cfg ->
   final (detection_callback cfg device data now g) = g /\
   emitted (detection_callback cfg device data now g) = []).
Proof.
  intros Ha Hr.
  pose proof (rssi_to_distance_sentinel cfg (rssi data) Hr) as Hd.
  destruct (detection_callback_body cfg device data now g Infinity Ha Hd)
    as (Eret & Efin & Eemit).
  rewrite Eret, Efin, Eemit.
  assert (Hn : dist_lt (Finite (NEARBY_DISTANCE_CM cfg)) Infinity) by exact I.
  assert (Hw : dist_lt (Finite (DISTANCE_THRESHOLD_CM cfg)) Infinity) by exact I.
  split; [apply on_distance_returns|]. split; [|split; [|split]].
  - intros Hin. apply unlock_intent_inv in Hin. destruct Hin as [Hle _].
    exact Hle.
  - intros Hs. now rewrite on_distance_away_first.
  - intros t Hs Ht. now rewrite (on_distance_away_expired cfg Infinity now t).
  - intros t Hs Ht. now rewrite (on_distance_away_waiting cfg Infinity now t).
Qed.

Lemma zero_rssi_counts_as_away_witness :
  final (detection_callback scenario_config
           {| name := None; address := "AA:BB:CC:DD:EE:FF" |}
           {| rssi := 0 |} 9 initial_globals) =
    {| distance_exceed_start_time := Some 9; screen_locked := false |} /\
  emitted (detection_callback scenario_config
             {| name := None; address := "AA:BB:CC:DD:EE:FF" |}
             {| rssi := 0 |} 9 initial_globals) = [].
Proof.
  apply (zero_rssi_counts_as_away scenario_config
           {| name := None; address := "AA:BB:CC:DD:EE:FF" |}
           {| rssi := 0 |} 9 initial_globals); reflexivity.
Defined.





(** X11: estimates are never negative, so a nearby threshold below 0 turns
    unlocking off: whatever the stream and the globals, the unlock command is
    never run. *)
Theorem negative_nearby_never_unlocks
    (cfg : config) (ads : list advertisement) (g : globals) :
  NEARBY_DISTANCE_CM cfg < 0 ->
  ~ In UnlockIntent (intents (fst (scan cfg ads g))).
Proof.
  intros Hn. revert g.
  induction ads as [|[[device data] now] ads IH]; intros g Hin.
  - contradiction.
  - rewrite scan_cons in Hin. cbn [fst] in Hin.
    rewrite intents_app in Hin. apply in_app_or in Hin.
    destruct Hin as [Hin | Hin]; [|now apply IH in Hin].
    destruct (detection_callback_cases cfg device data now g)
      as [E | [[e E] | (d & _ & Hd & E)]]; rewrite E in Hin;
      try contradiction.
    change (In UnlockIntent (emitted (on_distance cfg d now g))) in Hin.
    apply unlock_intent_inv in Hin. destruct Hin as [Hle _].
    apply estimate_nonnegative in Hd.
    destruct d as [r|]; simpl in *; [lra | contradiction].
Qed.

Lemma negative_nearby_never_unlocks_witness :
  ~ In UnlockIntent
      (intents
         (fst (scan
                 {| TARGET_MAC_ADDRESS := "AA:BB:CC:DD:EE:FF";
                    RSSI_AT_1M := -60;
                    PATH_LOSS_EXPONENT := 2;
                    DISTANCE_THRESHOLD_CM := 300;
                    NEARBY_DISTANCE_CM := -1;
                    TIME_THRESHOLD_SECONDS := 5 |}
                 [({| name := None; address := "AA:BB:CC:DD:EE:FF" |},
                   {| rssi := -20 |}, 1)]
                 {| distance_exceed_start_time := None;
                    screen_locked := true |}))).
Proof.
  apply (negative_nearby_never_unlocks
           {| TARGET_MAC_ADDRESS := "AA:BB:CC:DD:EE:FF";
              RSSI_AT_1M := -60;
              PATH_LOSS_EXPONENT := 2;
              DISTANCE_THRESHOLD_CM := 300;
              NEARBY_DISTANCE_CM := -1;
              TIME_THRESHOLD_SECONDS := 5 |}).
  simpl. lra.
Defined.



(** ** Beyond the specification: the presence probe *)

Lemma bind_device_name_none (cfg : config) (devices : list BLEDevice)
    (device_name : option (option string)) :
  existsb (is_target_device cfg) devices = false ->
  bind_device_name cfg devices device_name = device_name.
Proof.
  unfold bind_device_name. revert device_name.
  induction devices as [|device devices IH]; intros device_name Hno.
  - reflexivity.
  - cbn [existsb] in Hno. apply orb_false_iff in Hno. destruct Hno as [Hd Hrest].
    cbn [fold_left]. rewrite Hd. now apply IH.
Qed.

(** Lines 117-120: when [any] sees the target, the [for] has bound
    [device_name], to the name of the last device with the target's
    address. *)
Lemma bind_device_name_last (cfg : config) (devices : list BLEDevice)
    (device_name : option (option string)) :
  existsb (is_target_device cfg) devices = true ->
  exists n, bind_device_name cfg devices device_name = Some n /\
            names_last_target cfg devices n.
Proof.
  revert device_name.
  induction devices as [|device devices IH]; intros device_name Hany.
  - discriminate.
  - destruct (existsb (is_target_device cfg) devices) eqn:Hrest.
    + destruct (IH (if is_target_device cfg device
                    then Some (name device) else device_name) eq_refl)
        as (n & Hb & l1 & dev & l2 & Hsplit & Ht & Hl2 & Hn).
      exists n. split; [exact Hb|].
      exists (device :: l1), dev, l2. rewrite Hsplit. auto.
    + cbn [existsb] in Hany. rewrite Hrest, orb_false_r in Hany.
      exists (name device). split.
      * unfold bind_device_name. cbn [fold_left]. rewrite Hany.
        now apply bind_device_name_none.
      * exists [], device, devices. auto.
Qed.

Lemma names_last_target_any (cfg : config) (devices : list BLEDevice)
    (n : option string) :
  names_last_target cfg devices n ->
  existsb (is_target_device cfg) devices = true.
Proof.
  intros (l1 & device & l2 & -> & Ht & _ & _).
  rewrite existsb_app. cbn [existsb]. rewrite Ht.
  now rewrite orb_true_r.
Qed.

Lemma names_last_target_unique (cfg : config) (devices : list BLEDevice)
    (n m : option string) :
  names_last_target cfg devices n ->
  names_last_target cfg devices m ->
  n = m.
Proof.
  intros Hn Hm.
  pose proof (names_last_target_any cfg devices n Hn) as Hany.
  assert (Hbind : forall k, names_last_target cfg devices k ->
                            bind_device_name cfg devices None = Some k).
  { clear. intros k (l1 & device & l2 & -> & Ht & Hl2 & <-).
    unfold bind_device_name. rewrite fold_left_app. cbn [fold_left].
    rewrite Ht. now apply bind_device_name_none. }
  apply Hbind in Hn. apply Hbind in Hm. congruence.
Qed.

(** The loop stops at the first turn that shows the target before the
    deadline, having slept once for every turn before it. *)
Lemma probe_found (cfg : config) (start_time : R) (polls : list poll)
    (device_name : option (option string)) (sleeps : nat) (n : option string) :
  probe cfg start_time polls device_name = (sleeps, Found n) <->
  exists before now devices after,
    polls = before ++ (now, devices) :: after /\
    Forall (no_sighting cfg start_time) before /\
    now - start_time < 15 /\
    names_last_target cfg devices n /\
    sleeps = List.length before.
Proof.
  split.
  - revert device_name sleeps.
    induction polls as [|[now devices] polls IH]; intros device_name sleeps Hp.
    + discriminate.
    + cbn [probe] in Hp.
      destruct (Rltb (now - start_time) 15) eqn:Hlt; [|discriminate].
      apply Rltb_true in Hlt.
      destruct (existsb (is_target_device cfg) devices) eqn:Hany.
      * destruct (bind_device_name_last cfg devices device_name Hany)
          as (m & Hb & Hlast).
        rewrite Hb in Hp. injection Hp as <- <-.
        exists [], now, devices, polls. repeat split; auto.
      * rewrite (bind_device_name_none cfg devices device_name Hany) in Hp.
        destruct (probe cfg start_time polls device_name) as [k ending] eqn:Hrest.
        injection Hp as <- ->.
        destruct (IH device_name k Hrest)
          as (before & now' & devices' & after & -> & Hb & Hn & Hl & ->).
        exists ((now, devices) :: before), now', devices', after.
        repeat split; auto.
        constructor; [split; assumption | assumption].
  - intros (before & now & devices & after & -> & Hb & Hlt & Hlast & ->).
    induction Hb as [|[now' devices'] before [Hlt' Hno] _ IH].
    + cbn [app probe List.length]. apply Rltb_true in Hlt. rewrite Hlt.
      rewrite (names_last_target_any cfg devices n Hlast).
      destruct (bind_device_name_last cfg devices device_name
                  (names_last_target_any cfg devices n Hlast))
        as (m & Hb & Hm).
      rewrite Hb. now rewrite (names_last_target_unique cfg devices m n).
    + cbn [fst snd] in Hlt', Hno. cbn [app probe List.length].
      apply Rltb_true in Hlt'. rewrite Hlt', Hno.
      rewrite (bind_device_name_none cfg devices' device_name Hno).
      now rewrite IH.
Qed.

(** The loop gives up at the first turn at or after the deadline, whatever
    the scanner shows then. *)
Lemma probe_timed_out (cfg : config) (start_time : R) (before : list poll)
    (now : R) (devices : list BLEDevice) (after : list poll)
    (device_name : option (option string)) :
  Forall (no_sighting cfg start_time) before ->
  15 <= now - start_time ->
  probe cfg start_time (before ++ (now, devices) :: after) device_name =
    (List.length before, TimedOut).
Proof.
  intros Hb Hlate.
  induction Hb as [|[now' devices'] before [Hlt' Hno] _ IH].
  - cbn [app probe List.length]. apply Rltb_false in Hlate. now rewrite Hlate.
  - cbn [fst snd] in Hlt', Hno. cbn [app probe List.length].
    apply Rltb_true in Hlt'. rewrite Hlt', Hno.
    rewrite (bind_device_name_none cfg devices' device_name Hno).
    now rewrite IH.
Qed.

Lemma probe_not_unbound (cfg : config) (start_time : R) (polls : list poll)
    (device_name : option (option string)) :
  snd (probe cfg start_time polls device_name) <> Unbound.
Proof.
  revert device_name.
  induction polls as [|[now devices] polls IH]; intros device_name.
  - discriminate.
  - cbn [probe]. destruct (Rltb (now - start_time) 15); [|discriminate].
    destruct (existsb (is_target_device cfg) devices) eqn:Hany.
    + destruct (bind_device_name_last cfg devices device_name Hany)
        as (m & Hb & _).
      rewrite Hb. discriminate.
    + specialize (IH (bind_device_name cfg devices device_name)).
      destruct (probe cfg start_time polls
                  (bind_device_name cfg devices device_name)).
      exact IH.
Qed.

(** With a ticking clock the [k]-th test reads at least [start_time + k]:
    the loop cannot go on past fifteen sleeps. *)
Lemma probe_bounded (cfg : config) (start_time : R) (polls : list poll) :
  forall (k : nat) (prev : R) (device_name : option (option string)),
    (k <= 15)%nat ->
    start_time + INR k <= prev ->
    ticking prev polls ->
    (16 <= List.length polls + k)%nat ->
    snd (probe cfg start_time polls device_name) <> Pending /\
    (fst (probe cfg start_time polls device_name) + k <= 15)%nat.
Proof.
  induction polls as [|[now devices] polls IH];
    intros k prev device_name Hk Hprev Htick Hlen.
  - cbn [List.length] in Hlen. lia.
  - destruct Htick as [Hnow Htick]. cbn [probe].
    destruct (Rltb (now - start_time) 15) eqn:Hlt.
    + apply Rltb_true in Hlt.
      assert (Hk' : (k < 15)%nat).
      { assert (Hz : IZR (Z.of_nat k) < IZR 15)
          by (rewrite <- INR_IZR_INZ; lra).
        apply lt_IZR in Hz. lia. }
      destruct (existsb (is_target_device cfg) devices).
      * destruct (bind_device_name cfg devices device_name);
          cbn [fst snd]; split; (discriminate || lia).
      * specialize (IH (S k) (now + 1)
                      (bind_device_name cfg devices device_name)).
        destruct (probe cfg start_time polls
                    (bind_device_name cfg devices device_name))
          as [sleeps ending].
        cbn [fst snd] in *.
        destruct IH as [Hend Hsleeps]; try lia; try assumption.
        -- rewrite S_INR. lra.
        -- cbn [List.length] in Hlen. lia.
        -- split; [assumption | lia].
    + cbn [fst snd]. split; [discriminate | lia].
Qed.

(** X13: the probe finds the device exactly at the first sighting: the loop
    of [run], entered with [device_name] unbound, ends by [break] with the
    name [n] after [sleeps] sleeps if and only if the polls split into
    [sleeps] turns before the deadline that do not show the target, and a
    turn before the deadline that does, [n] being the name of the last
    device in that turn's list with the target's address. *)
Theorem probe_finds_first_sighting
    (cfg : config) (start_time : R) (polls : list poll)
    (sleeps : nat) (n : option string) :
  probe cfg start_time polls None = (sleeps, Found n) <->
  exists before now devices after,
    polls = before ++ (now, devices) :: after /\
    Forall (no_sighting cfg start_time) before /\
    now - start_time < 15 /\
    names_last_target cfg devices n /\
    sleeps = List.length before.
Proof.
  apply probe_found.
Qed.

Lemma probe_finds_first_sighting_witness :
  probe scenario_config 100
    ([(100, [{| name := Some "Phone"%string; address := "11:22:33:44:55:66" |}])]
     ++ (101, [{| name := Some "Band"%string; address := "AA:BB:CC:DD:EE:FF" |};
               {| name := Some "Phone"%string; address := "11:22:33:44:55:66" |}])
     :: []) None
    = (1%nat, Found (Some "Band"%string)).
Proof.
  apply (proj2 (probe_finds_first_sighting scenario_config 100 _ 1
                  (Some "Band"%string))).
  exists [(100, [{| name := Some "Phone"%string;
                    address := "11:22:33:44:55:66"%string |}])],
         101,
         [{| name := Some "Band"%string; address := "AA:BB:CC:DD:EE:FF"%string |};
          {| name := Some "Phone"%string; address := "11:22:33:44:55:66"%string |}],
         [].
  split; [reflexivity|]. split; [|split; [|split]].
  - constructor; [|constructor]. split; [simpl; lra | reflexivity].
  - lra.
  - exists [], {| name := Some "Band"%string;
                  address := "AA:BB:CC:DD:EE:FF"%string |},
           [{| name := Some "Phone"%string;
               address := "11:22:33:44:55:66"%string |}].
    repeat split; reflexivity.
  - reflexivity.
Defined.

(** X14: at the first sighting [run] goes over to tracking: after one sleep
    for every turn without sighting it sends the notification that names the
    device and the address, stops the probing scanner and only then starts
    the scanner with the callback, the timer clear and the lock flag as it
    was; what the scanner would show in later turns plays no part. *)
Theorem startup_tracks_on_first_sighting
    (cfg : config) (g : globals) (start_time : R) (before : list poll)
    (now : R) (devices : list BLEDevice) (after : list poll)
    (n : option string) :
  Forall (no_sighting cfg start_time) before ->
  now - start_time < 15 ->
  names_last_target cfg devices n ->
  run_startup cfg g start_time (before ++ (now, devices) :: after) =
    ((ScannerStarted false :: repeat Slept (List.length before))
       ++ [Notified (found_text cfg n); ScannerStopped; ScannerStarted true],
     Tracking {| distance_exceed_start_time := None;
                 screen_locked := screen_locked g |}).
Proof.
  intros Hb Hlt Hlast. unfold run_startup.
  assert (Hp : probe cfg start_time (before ++ (now, devices) :: after) None
               = (List.length before, Found n)).
  { apply probe_found. exists before, now, devices, after. auto. }
  rewrite Hp. reflexivity.
Qed.

Lemma startup_tracks_on_first_sighting_witness :
  run_startup scenario_config initial_globals 100
    ([(100, [])]
     ++ (101, [{| name := None; address := "AA:BB:CC:DD:EE:FF" |}])
     :: [(102, [])]) =
    ((ScannerStarted false :: repeat Slept 1)
       ++ [Notified (found_text scenario_config None); ScannerStopped;
           ScannerStarted true],
     Tracking initial_globals).
Proof.
  apply (startup_tracks_on_first_sighting scenario_config initial_globals 100
           [(100, [])] 101
           [{| name := None; address := "AA:BB:CC:DD:EE:FF"%string |}]
           [(102, [])] None).
  - constructor; [|constructor]. split; [simpl; lra | reflexivity].
  - lra.
  - exists [], {| name := None; address := "AA:BB:CC:DD:EE:FF"%string |}, [].
    repeat split; reflexivity.
Defined.

(** X15: a sighting at or after the deadline comes too late: if no turn
    before the deadline shows the target, then at the first turn whose clock
    is 15 s or more past the start [run] stops the scanner, notifies that the
    band was not found, logs it and exits with status 0, whatever the scanner
    shows in that turn or later; the scanner with the callback is never
    started. *)
Theorem startup_gives_up_at_deadline
    (cfg : config) (g : globals) (start_time : R) (before : list poll)
    (now : R) (devices : list BLEDevice) (after : list poll) :
  Forall (no_sighting cfg start_time) before ->
  15 <= now - start_time ->
  run_startup cfg g start_time (before ++ (now, devices) :: after) =
    ((ScannerStarted false :: repeat Slept (List.length before))
       ++ [ScannerStopped; Notified not_found_text;
           Logged "Device not found. Exiting script."],
     Exited 0).
Proof.
  intros Hb Hlate. unfold run_startup.
  rewrite (probe_timed_out cfg start_time before now devices after None Hb Hlate).
  reflexivity.
Qed.

Lemma startup_gives_up_at_deadline_witness :
  run_startup scenario_config initial_globals 100
    ([(100, []); (114, [])]
     ++ (115, [{| name := None; address := "AA:BB:CC:DD:EE:FF" |}]) :: []) =
    ((ScannerStarted false :: repeat Slept 2)
       ++ [ScannerStopped; Notified not_found_text;
           Logged "Device not found. Exiting script."],
     Exited 0).
Proof.
  apply (startup_gives_up_at_deadline scenario_config initial_globals 100
           [(100, []); (114, [])] 115
           [{| name := None; address := "AA:BB:CC:DD:EE:FF"%string |}] []).
  - repeat constructor; simpl; lra.
  - lra.
Defined.

(** X16: the notification of line 122 never fails on an unbound
    [device_name]: whenever [any] on line 120 sees the target, the [for] on
    lines 117-119 has bound the name; so [run] does not crash in its
    start-up, whatever the clock and the scanner do. *)
Theorem startup_never_crashes
    (cfg : config) (g : globals) (start_time : R) (polls : list poll) :
  snd (run_startup cfg g start_time polls) <> Crashed.
Proof.
  unfold run_startup.
  pose proof (probe_not_unbound cfg start_time polls None) as Hu.
  destruct (probe cfg start_time polls None) as [sleeps ending].
  cbn [snd] in Hu. destruct ending; cbn [snd]; try discriminate.
  contradiction.
Qed.

(** X17: the start-up is over within fifteen sleeps: if the clock is not
    before the start at the first test and advances by at least the second
    slept from one test to the next, then among sixteen polls the loop has
    ended, having slept at most 15 times, and [run] is tracking or has
    exited with status 0. *)
Theorem startup_ends_within_fifteen_sleeps
    (cfg : config) (g : globals) (start_time : R) (polls : list poll) :
  ticking start_time polls ->
  (16 <= List.length polls)%nat ->
  (fst (probe cfg start_time polls None) <= 15)%nat /\
  (snd (run_startup cfg g start_time polls) =
     Tracking {| distance_exceed_start_time := None;
                 screen_locked := screen_locked g |} \/
   snd (run_startup cfg g start_time polls) = Exited 0).
Proof.
  intros Htick Hlen.
  destruct (probe_bounded cfg start_time polls 0 start_time None)
    as [Hend Hsleeps]; try lia; try assumption.
  { simpl. lra. }
  pose proof (probe_not_unbound cfg start_time polls None) as Hu.
  unfold run_startup.
  destruct (probe cfg start_time polls None) as [sleeps ending].
  cbn [fst snd] in *. split; [lia|].
  destruct ending; cbn [snd]; auto; contradiction.
Qed.

Lemma startup_ends_within_fifteen_sleeps_witness :
  Nat.le
    (fst (probe scenario_config 0
            [(0, []); (1, []); (2, []); (3, []); (4, []); (5, []); (6, []);
             (7, []); (8, []); (9, []); (10, []); (11, []); (12, []); (13, []);
             (14, []); (15, [])] None)) 15 /\
  (snd (run_startup scenario_config initial_globals 0
          [(0, []); (1, []); (2, []); (3, []); (4, []); (5, []); (6, []);
           (7, []); (8, []); (9, []); (10, []); (11, []); (12, []); (13, []);
           (14, []); (15, [])]) =
     Tracking {| distance_exceed_start_time := None;
                 screen_locked := screen_locked initial_globals |} \/
   snd (run_startup scenario_config initial_globals 0
          [(0, []); (1, []); (2, []); (3, []); (4, []); (5, []); (6, []);
           (7, []); (8, []); (9, []); (10, []); (11, []); (12, []); (13, []);
           (14, []); (15, [])]) = Exited 0).
Proof.
  apply (startup_ends_within_fifteen_sleeps scenario_config initial_globals 0).
  - simpl. repeat split; lra.
  - simpl. lia.
Defined.
